(** * Vanta: the asset fetcher and the session orchestrator

    A shallow embedding of [scripts/download_model.py] and [agent/agent.py].

    Both programs are straight-line glue over collaborators that live outside
    the repository (the operating system, [urllib], the LiveKit runtime).  The
    programs themselves are embedded statement by statement in a small state
    and exception monad; the collaborators are modelled as the environment:
    the file system as a tree of directories and regular files, the network as
    a script of responses, the LiveKit objects as a record of outcomes. *)

From Stdlib Require Import Ascii String.
From stdpp Require Import gmap strings list fin_maps.

#[local] Set Warnings "-register-all".
#[local] Open Scope string_scope.

(** ** Python control flow: exceptions, results, sequencing *)

Module Py.

(** The part of the exception hierarchy the two programs can observe.
    [Exception_ n] stands for any further class below [Exception],
    [BaseException_ n] for any further class that derives from
    [BaseException] without deriving from [Exception]. *)
Inductive exn_class : Type :=
  | OSError
  | FileExistsError
  | FileNotFoundError
  | NotADirectoryError
  | IsADirectoryError
  | URLError
  | HTTPError
  | ContentTooShortError
  | Exception_ (name : string)
  | CancelledError
  | KeyboardInterrupt
  | SystemExit
  | GeneratorExit
  | BaseException_ (name : string).

Record exn : Type := Exn { exn_class_of : exn_class; exn_msg : string }.

(** [issubclass(c, Exception)] *)
Definition is_Exception (c : exn_class) : bool :=
  match c with
  | CancelledError | KeyboardInterrupt | SystemExit | GeneratorExit
  | BaseException_ _ => false
  | _ => true
  end.

(** [issubclass(c, OSError)]; [URLError] derives from [OSError],
    [HTTPError] and [ContentTooShortError] from [URLError]. *)
Definition is_OSError (c : exn_class) : bool :=
  match c with
  | OSError | FileExistsError | FileNotFoundError | NotADirectoryError
  | IsADirectoryError | URLError | HTTPError | ContentTooShortError => true
  | _ => false
  end.

Definition is_FileExistsError (c : exn_class) : bool :=
  match c with FileExistsError => true | _ => false end.

(** [isinstance(e, Exception)], the test of [except Exception]. *)
Definition isinstance_Exception (e : exn) : bool := is_Exception (exn_class_of e).

(** [str(e)] *)
Definition str (e : exn) : string := exn_msg e.

(** How a call ends: it returns a value, it raises, or it never comes back
    (a coroutine parked on an await that nobody resolves). *)
Inductive result (A : Type) : Type :=
  | Done (a : A)
  | Raised (e : exn)
  | Suspended.
Arguments Done {A} a.
Arguments Raised {A} e.
Arguments Suspended {A}.

(** Computations over a state [S]. *)
Definition M (S A : Type) : Type := S → S * result A.

Definition ret {S A} (a : A) : M S A := λ s, (s, Done a).

Definition bind {S A B} (m : M S A) (k : A → M S B) : M S B :=
  λ s, match m s with
       | (s', Done a) => k a s'
       | (s', Raised e) => (s', Raised e)
       | (s', Suspended) => (s', Suspended)
       end.

Definition raise {S A} (e : exn) : M S A := λ s, (s, Raised e).

Definition get {S} : M S S := λ s, (s, Done s).
Definition modify {S} (f : S → S) : M S unit := λ s, (f s, Done tt).

(** [try: body / except <catches> as e: handler e] *)
Definition try_except {S A} (body : M S A) (catches : exn_class → bool)
    (handler : exn → M S A) : M S A :=
  λ s, match body s with
       | (s', Raised e) =>
           if catches (exn_class_of e) then handler e s' else (s', Raised e)
       | other => other
       end.

Declare Scope py_scope.
Delimit Scope py_scope with py.
Notation "x <- m ;; k" := (bind m (λ x, k))
  (at level 100, m at next level, k at level 200, right associativity) : py_scope.
Notation "m ;; k" := (bind m (λ _, k))
  (at level 100, k at level 200, right associativity) : py_scope.

End Py.

(** ** The asset fetcher, [scripts/download_model.py] *)

Module Fetcher.
Import Py.
#[local] Open Scope py_scope.

(** *** Path strings ([posixpath]) *)

Definition is_sep (c : ascii) : bool := Ascii.eqb c "/"%char.

(** [(p[:i], p[i:])] for [i = p.rfind('/') + 1], when [p] has a slash. *)
Fixpoint rsplit_sep (p : string) : option (string * string) :=
  match p with
  | EmptyString => None
  | String c p' =>
      match rsplit_sep p' with
      | Some (h, t) => Some (String c h, t)
      | None => if is_sep c then Some (String c EmptyString, p') else None
      end
  end.

(** [s.rstrip('/')] *)
Fixpoint rstrip_sep (s : string) : string :=
  match s with
  | EmptyString => EmptyString
  | String c s' =>
      match rstrip_sep s' with
      | EmptyString => if is_sep c then EmptyString else String c EmptyString
      | r => String c r
      end
  end.

(** [os.path.dirname]: the head up to the last slash, without its trailing
    slashes unless it consists of slashes only. *)
Definition os_path_dirname (p : string) : string :=
  match rsplit_sep p with
  | None => EmptyString
  | Some (head, _) =>
      match rstrip_sep head with
      | EmptyString => head
      | stripped => stripped
      end
  end.

(** The names a path walks through, as the kernel resolves it from the
    working directory: the pieces between slashes, empty pieces dropped. *)
Fixpoint components_from (cur : string) (p : string) : list string :=
  match p with
  | EmptyString => match cur with EmptyString => [] | _ => [cur] end
  | String c p' =>
      if is_sep c
      then match cur with
           | EmptyString => components_from EmptyString p'
           | _ => cur :: components_from EmptyString p'
           end
      else components_from (cur ++ String c EmptyString) p'
  end.

Definition components (p : string) : list string := components_from EmptyString p.

(** *** The file system

    A directory maps names to nodes; a node is a regular file with its bytes
    or a directory.  The state is the content of the working directory of the
    process: the script uses relative paths only.  Symbolic links, ownership
    and permissions are outside the model. *)

Inductive node : Type :=
  | File (content : list Byte.byte)
  | Dir (entries : gmap string node).

Inductive errno : Type := EEXIST | ENOENT | ENOTDIR | EISDIR.

Inductive sysres (A : Type) : Type :=
  | Ok (a : A)
  | Err (e : errno).
Arguments Ok {A} a.
Arguments Err {A} e.

(** [stat(2)] *)
Fixpoint stat_in (d : gmap string node) (cs : list string) : sysres node :=
  match cs with
  | [] => Ok (Dir d)
  | c :: cs' =>
      match d !! c with
      | None => Err ENOENT
      | Some (File b) => match cs' with [] => Ok (File b) | _ :: _ => Err ENOTDIR end
      | Some (Dir d') => stat_in d' cs'
      end
  end.

(** [mkdir(2)]: creates exactly one directory, whose parent must exist. *)
Fixpoint mkdir_in (d : gmap string node) (cs : list string) : sysres (gmap string node) :=
  match cs with
  | [] => Err EEXIST
  | c :: cs' =>
      match d !! c, cs' with
      | None, [] => Ok (<[c := Dir ∅]> d)
      | None, _ :: _ => Err ENOENT
      | Some _, [] => Err EEXIST
      | Some (File _), _ :: _ => Err ENOTDIR
      | Some (Dir d'), _ :: _ =>
          match mkdir_in d' cs' with
          | Ok d'' => Ok (<[c := Dir d'']> d)
          | Err e => Err e
          end
      end
  end.

(** [open(path, 'wb')], writing [data] and closing: the file is created or
    truncated and then holds [data]. *)
Fixpoint write_in (d : gmap string node) (cs : list string) (data : list Byte.byte)
    : sysres (gmap string node) :=
  match cs with
  | [] => Err EISDIR
  | c :: cs' =>
      match d !! c, cs' with
      | None, [] => Ok (<[c := File data]> d)
      | Some (File _), [] => Ok (<[c := File data]> d)
      | Some (Dir _), [] => Err EISDIR
      | None, _ :: _ => Err ENOENT
      | Some (File _), _ :: _ => Err ENOTDIR
      | Some (Dir d'), _ :: _ =>
          match write_in d' cs' data with
          | Ok d'' => Ok (<[c := Dir d'']> d)
          | Err e => Err e
          end
      end
  end.

Definition exists_in (d : gmap string node) (cs : list string) : bool :=
  match stat_in d cs with Ok _ => true | Err _ => false end.

Definition isdir_in (d : gmap string node) (cs : list string) : bool :=
  match stat_in d cs with Ok (Dir _) => true | _ => false end.

(** The [OSError] subclass Python raises for an error number. *)
Definition os_error (e : errno) : exn :=
  match e with
  | EEXIST => Exn FileExistsError "File exists"
  | ENOENT => Exn FileNotFoundError "No such file or directory"
  | ENOTDIR => Exn NotADirectoryError "Not a directory"
  | EISDIR => Exn IsADirectoryError "Is a directory"
  end.

(** The empty path names nothing: [stat("")] fails with [ENOENT]. *)
Definition path_exists (cs : list string) : M (gmap string node) bool :=
  d <- get ;; ret (match cs with [] => false | _ => exists_in d cs end).

Definition path_isdir (cs : list string) : M (gmap string node) bool :=
  d <- get ;; ret (match cs with [] => false | _ => isdir_in d cs end).

(** [os.mkdir] *)
Definition os_mkdir (cs : list string) : M (gmap string node) unit :=
  λ d, match cs with
       | [] => (d, Raised (os_error ENOENT))
       | _ => match mkdir_in d cs with
              | Ok d' => (d', Done tt)
              | Err e => (d, Raised (os_error e))
              end
       end.

(** [os.makedirs(name, exist_ok=exist_ok)], on the reversed components of
    [name], so that the recursion on [head, tail = os.path.split(name)] is
    structural:
<<
    if head and tail and not path.exists(head):
        try: makedirs(head, exist_ok=exist_ok)
        except FileExistsError: pass
    try: mkdir(name, mode)
    except OSError:
        if not exist_ok or not path.isdir(name): raise
>> *)
Fixpoint makedirs_rev (rcs : list string) (exist_ok : bool) : M (gmap string node) unit :=
  match rcs with
  | [] => os_mkdir []
  | _ :: rhead =>
      head_exists <- path_exists (rev rhead) ;;
      (match rhead with
       | [] => ret tt
       | _ :: _ =>
           if negb head_exists
           then try_except (makedirs_rev rhead exist_ok) is_FileExistsError (λ _, ret tt)
           else ret tt
       end) ;;
      try_except (os_mkdir (rev rcs)) is_OSError
        (λ e, isdir <- path_isdir (rev rcs) ;;
              if negb exist_ok || negb isdir then raise e else ret tt)
  end.

Definition makedirs (cs : list string) (exist_ok : bool) : M (gmap string node) unit :=
  makedirs_rev (rev cs) exist_ok.

(** *** The network

    What the remote end does with one request.  [urlretrieve] first opens
    the URL, then opens the destination for writing, then copies block by
    block; an error can strike before the destination is opened or after
    some bytes went into it. *)
Inductive response : Type :=
  | Served (body : list Byte.byte)
  | Failed (e : exn)
  | Interrupted (written : list Byte.byte) (e : exn).

(** *** The process state *)

Inductive event : Type :=
  | EvMakedirs (name : string)
  | EvExists (path : string) (answer : bool)
  | EvPrint (text : string)
  | EvUrlretrieve (url filename : string).

(** [cwd]: the file system below the working directory; [net]: the
    responses the next requests will get (none left: the host is
    unreachable); [trace]: the calls made so far, oldest first. *)
Record world : Type := World {
  cwd : gmap string node;
  net : list response;
  trace : list event
}.

Definition log (ev : event) : M world unit :=
  modify (λ w, World (cwd w) (net w) (trace w ++ [ev])).

(** Runs a file-system computation on the [cwd] of the process. *)
Definition on_fs {A} (m : M (gmap string node) A) : M world A :=
  λ w, match m (cwd w) with
       | (d', r) => (World d' (net w) (trace w), r)
       end.

Definition os_makedirs (name : string) (exist_ok : bool) : M world unit :=
  log (EvMakedirs name) ;;
  on_fs (makedirs (components name) exist_ok).

Definition os_path_exists (path : string) : M world bool :=
  b <- on_fs (path_exists (components path)) ;;
  log (EvExists path b) ;;
  ret b.

Definition print (text : string) : M world unit := log (EvPrint text).

Definition unreachable : exn := Exn URLError "Network is unreachable".

(** [urlopen(url)]: takes the next response; a failure to open raises. *)
Definition urlopen : M world response :=
  λ w, match net w with
       | [] => (w, Raised unreachable)
       | Failed e :: rest => (World (cwd w) rest (trace w), Raised e)
       | r :: rest => (World (cwd w) rest (trace w), Done r)
       end.

(** [open(filename, 'wb')] followed by the writes that reached the file. *)
Definition write_file (filename : string) (data : list Byte.byte)
    : M (gmap string node) unit :=
  λ d, match write_in d (components filename) data with
       | Ok d' => (d', Done tt)
       | Err e => (d, Raised (os_error e))
       end.

(** [urllib.request.urlretrieve(url, filename)] *)
Definition urlretrieve (url filename : string) : M world unit :=
  log (EvUrlretrieve url filename) ;;
  r <- urlopen ;;
  match r with
  | Served body => on_fs (write_file filename body)
  | Interrupted written e => on_fs (write_file filename written) ;; raise e
  | Failed e => raise e
  end.

(** *** The script *)

Definition MODEL_URL : string :=
  "https://raw.githubusercontent.com/snakers4/silero-vad/master/src/silero_vad/data/silero_vad.onnx".
Definition OUTPUT_PATH : string := "app/src/main/assets/silero_vad.onnx".

Definition main : M world unit :=
  os_makedirs (os_path_dirname OUTPUT_PATH) true ;;
  present <- os_path_exists OUTPUT_PATH ;;
  if present then
    print ("✓ Model already exists: " ++ OUTPUT_PATH)
  else
    print "Downloading Silero VAD model..." ;;
    urlretrieve MODEL_URL OUTPUT_PATH ;;
    print ("✓ Downloaded to: " ++ OUTPUT_PATH).

(** How the interpreter ends after [if __name__ == "__main__": main()]: an
    uncaught error prints its traceback on standard error and the exit
    status is 1.  [Aborted] covers the classes outside [Exception], whose
    exit status is not modelled; [Hung] a call that never returns. *)
Inductive termination : Type :=
  | Exit (status : nat) (traceback : option exn)
  | Aborted (e : exn)
  | Hung.

Definition run_script (w : world) : world * termination :=
  match main w with
  | (w', Done _) => (w', Exit 0 None)
  | (w', Raised e) =>
      (w', if isinstance_Exception e then Exit 1 (Some e) else Aborted e)
  | (w', Suspended) => (w', Hung)
  end.

(** The components of [os.path.dirname(OUTPUT_PATH)] and of [OUTPUT_PATH]. *)
Definition DIR : list string := ["app"; "src"; "main"; "assets"].
Definition FILE : list string := DIR ++ ["silero_vad.onnx"].

(** *** What [makedirs] is meant to do

    Walks down the path and adds every directory that is missing; a regular
    file in the way is an error ([EEXIST] at the last name, [ENOTDIR]
    before it).  [makedirs_ensure_dirs] below shows that the recursion of
    [makedirs] with [exist_ok=True] computes exactly this. *)
Fixpoint ensure_dirs (d : gmap string node) (cs : list string)
    : sysres (gmap string node) :=
  match cs with
  | [] => Ok d
  | c :: cs' =>
      match d !! c with
      | Some (File _) => Err (match cs' with [] => EEXIST | _ :: _ => ENOTDIR end)
      | Some (Dir d') =>
          match ensure_dirs d' cs' with
          | Ok d'' => Ok (<[c := Dir d'']> d)
          | Err e => Err e
          end
      | None =>
          match ensure_dirs ∅ cs' with
          | Ok d'' => Ok (<[c := Dir d'']> d)
          | Err e => Err e
          end
      end
  end.

(** A regular file sits on the path, at the last name or before. *)
Fixpoint obstructed (d : gmap string node) (cs : list string) : bool :=
  match cs with
  | [] => false
  | c :: cs' =>
      match d !! c with
      | Some (File _) => true
      | Some (Dir d') => obstructed d' cs'
      | None => false
      end
  end.

(** [mkdir] as the last two lines of [makedirs] use it with
    [exist_ok=True]: an error is dropped when the directory is there. *)
Definition mkdir_exist_ok (d : gmap string node) (cs : list string)
    : sysres (gmap string node) :=
  match mkdir_in d cs with
  | Ok d' => Ok d'
  | Err e => if isdir_in d cs then Ok d else Err e
  end.

(** The bytes of the regular file at a path, if there is one. *)
Definition read_file (d : gmap string node) (cs : list string) : option (list Byte.byte) :=
  match stat_in d cs with Ok (File b) => Some b | _ => None end.

(** The number of network fetches in a trace. *)
Definition is_fetch (ev : event) : bool :=
  match ev with EvUrlretrieve _ _ => true | _ => false end.

Fixpoint fetches (tr : list event) : nat :=
  match tr with
  | [] => 0
  | ev :: tr' => (if is_fetch ev then 1 else 0) + fetches tr'
  end.

(** The texts of the calls, as the script evaluates them. *)
Definition DIRNAME : string := "app/src/main/assets".
Definition MSG_EXISTS : string :=
  "✓ Model already exists: app/src/main/assets/silero_vad.onnx".
Definition MSG_DOWNLOADING : string := "Downloading Silero VAD model...".
Definition MSG_DOWNLOADED : string :=
  "✓ Downloaded to: app/src/main/assets/silero_vad.onnx".

(** *** Some worlds to run the script in *)

Definition ABC : list Byte.byte := [Byte.x41; Byte.x42; Byte.x43].

(** An empty working directory; the server answers with [ABC]. *)
Definition world_fresh : world := World ∅ [Served ABC] [].

(** The model file is in place already, with some other content. *)
Definition world_with_model : world :=
  World
    {[ "app" := Dir {[ "src" := Dir {[ "main" := Dir {[ "assets" :=
         Dir {[ "silero_vad.onnx" := File [Byte.x00] ]} ]} ]} ]} ]}
    [Served ABC] [].

(** An empty working directory and no network. *)
Definition world_offline : world := World ∅ [] [].

(** The connection breaks after two of the three bytes. *)
Definition too_short : exn := Exn ContentTooShortError "retrieval incomplete".
Definition world_truncated : world :=
  World ∅ [Interrupted [Byte.x41; Byte.x42] too_short] [].

(** [app] is a regular file. *)
Definition world_blocked : world := World {[ "app" := File [] ]} [Served ABC] [].

(** The error that the next request runs into, if it does, and the bytes
    that reach the destination before it: none when the URL cannot be
    opened, the bytes written so far when the transfer breaks. *)
Definition download_error (w : world) : option (exn * option (list Byte.byte)) :=
  match net w with
  | [] => Some (unreachable, None)
  | Failed e :: _ => Some (e, None)
  | Interrupted written e :: _ => Some (e, Some written)
  | Served _ :: _ => None
  end.

(** A working directory with a file of its own; the server answers with
    [ABC]. *)
Definition world_with_notes : world :=
  World {[ "app" := Dir {[ "notes.txt" := File [Byte.x68; Byte.x69] ]} ]} [Served ABC] [].

End Fetcher.

(** ** The session orchestrator, [agent/agent.py] *)

Module Orchestrator.
Import Py.
#[local] Open Scope py_scope.

(** *** The objects the entrypoint handles *)

Record Room : Type := { name : string }.
Record JobContext : Type := { room : Room }.
Record Participant : Type := { identity : string }.
Record RealtimeModel : Type := { model : string; instructions : string }.
Record AgentSession : Type := { llm : RealtimeModel }.
Record Agent : Type := { agent_instructions : string }.

(** *** The collaborators

    How an awaited call ends: it resolves, it raises (a cancellation
    delivered at the await raises there, too), or it stays pending. *)
Inductive outcome (A : Type) : Type :=
  | Resolves (a : A)
  | Raises (e : exn)
  | Pends.
Arguments Resolves {A} a.
Arguments Raises {A} e.
Arguments Pends {A}.

(** What can end the wait on [asyncio.Future()]: nobody but the entrypoint
    holds the future, so it is never resolved; the parked coroutine is
    resumed only by a cancellation of its task or by being closed. *)
Inductive wakeup : Type :=
  | Never
  | Cancel (msg : string)
  | Close.

(** One behaviour of everything outside the repository during one
    invocation.  The constructors are synchronous: they return ([None]) or
    raise. *)
Record Env : Type := {
  connect : outcome unit;
  wait_for_participant : outcome Participant;
  RealtimeModel_init : option exn;
  AgentSession_init : option exn;
  Agent_init : option exn;
  start : outcome unit;
  generate_reply : outcome unit;
  future : wakeup
}.

Inductive event : Type :=
  | LogInfo (msg : string)
  | LogError (msg : string) (exc_info : option exn)
  | CtxConnect
  | CtxWaitForParticipant
  | NewRealtimeModel (model instructions : string)
  | NewAgentSession (llm : RealtimeModel)
  | NewAgent (instructions : string)
  | SessionStart (session : AgentSession) (room : Room) (agent : Agent)
  | SessionGenerateReply (session : AgentSession) (instructions : string)
  | AwaitFuture.

(** The state is the list of calls and log records so far, oldest first. *)
Definition log (ev : event) : M (list event) unit :=
  modify (λ tr, (tr ++ [ev])%list).

Definition await {A} (o : outcome A) : M (list event) A :=
  λ tr, match o with
        | Resolves a => (tr, Done a)
        | Raises e => (tr, Raised e)
        | Pends => (tr, Suspended)
        end.

Definition construct {A} (o : option exn) (obj : A) : M (list event) A :=
  match o with
  | None => ret obj
  | Some e => raise e
  end.

Definition logger_info (msg : string) : M (list event) unit := log (LogInfo msg).

(** [logger.error(msg, exc_info=exc_info)] inside the handler of [handled]:
    with [exc_info=True] the record carries the traceback of [handled]. *)
Definition logger_error (msg : string) (exc_info : bool) (handled : exn)
    : M (list event) unit :=
  log (LogError msg (if exc_info then Some handled else None)).

Definition ctx_connect (env : Env) : M (list event) unit :=
  log CtxConnect ;; await (connect env).

Definition ctx_wait_for_participant (env : Env) : M (list event) Participant :=
  log CtxWaitForParticipant ;; await (wait_for_participant env).

Definition google_realtime_RealtimeModel (env : Env) (model instructions : string)
    : M (list event) RealtimeModel :=
  log (NewRealtimeModel model instructions) ;;
  construct (RealtimeModel_init env) {| model := model; instructions := instructions |}.

Definition new_AgentSession (env : Env) (llm : RealtimeModel) : M (list event) AgentSession :=
  log (NewAgentSession llm) ;;
  construct (AgentSession_init env) {| llm := llm |}.

Definition new_Agent (env : Env) (instructions : string) : M (list event) Agent :=
  log (NewAgent instructions) ;;
  construct (Agent_init env) {| agent_instructions := instructions |}.

Definition session_start (env : Env) (session : AgentSession) (room : Room) (agent : Agent)
    : M (list event) unit :=
  log (SessionStart session room agent) ;; await (start env).

Definition session_generate_reply (env : Env) (session : AgentSession) (instructions : string)
    : M (list event) unit :=
  log (SessionGenerateReply session instructions) ;; await (generate_reply env).

(** [await asyncio.Future()] *)
Definition await_Future (env : Env) : M (list event) unit :=
  log AwaitFuture ;;
  match future env with
  | Never => λ tr, (tr, Suspended)
  | Cancel msg => raise (Exn CancelledError msg)
  | Close => raise (Exn GeneratorExit "")
  end.

(** *** The entrypoint *)

Definition entrypoint (env : Env) (ctx : JobContext) : M (list event) unit :=
  try_except
    (logger_info ("Connecting to room " ++ name (room ctx)) ;;
     ctx_connect env ;;
     participant <- ctx_wait_for_participant env ;;
     logger_info ("Participant connected: " ++ identity participant) ;;
     model <- google_realtime_RealtimeModel env
                "gemini-2.0-flash-exp"
                "You are Vanta, a helpful assistant." ;;
     session <- new_AgentSession env model ;;
     agent <- new_Agent env "You are Vanta." ;;
     session_start env session (room ctx) agent ;;
     session_generate_reply env session
       "Say hello to the user and introduce yourself as Vanta." ;;
     await_Future env)
    is_Exception
    (λ e, logger_error ("CRITICAL ERROR: " ++ str e) true e).

(** One invocation by the worker runtime, from an empty record of calls. *)
Definition run (env : Env) (ctx : JobContext) : list event * result unit :=
  entrypoint env ctx [].

(** *** The call points of the entrypoint, for stating where a run fails *)

Inductive step : Type :=
  | Connect
  | WaitForParticipant
  | MakeModel
  | MakeSession
  | MakeAgent
  | StartSession
  | GenerateReply
  | FinalWait.

Definition steps : list step :=
  [Connect; WaitForParticipant; MakeModel; MakeSession; MakeAgent;
   StartSession; GenerateReply; FinalWait].

Definition step_index (k : step) : nat :=
  match k with
  | Connect => 0 | WaitForParticipant => 1 | MakeModel => 2 | MakeSession => 3
  | MakeAgent => 4 | StartSession => 5 | GenerateReply => 6 | FinalWait => 7
  end.

Definition raised_by {A} (o : outcome A) : option exn :=
  match o with Raises e => Some e | _ => None end.

Definition resolved {A} (o : outcome A) : bool :=
  match o with Resolves _ => true | _ => false end.

Definition constructed (o : option exn) : bool :=
  match o with None => true | Some _ => false end.

(** The exception the environment raises at a call point, if any. *)
Definition raised_at (env : Env) (k : step) : option exn :=
  match k with
  | Connect => raised_by (connect env)
  | WaitForParticipant => raised_by (wait_for_participant env)
  | MakeModel => RealtimeModel_init env
  | MakeSession => AgentSession_init env
  | MakeAgent => Agent_init env
  | StartSession => raised_by (start env)
  | GenerateReply => raised_by (generate_reply env)
  | FinalWait =>
      match future env with
      | Never => None
      | Cancel msg => Some (Exn CancelledError msg)
      | Close => Some (Exn GeneratorExit "")
      end
  end.

(** The call at a call point comes back with a value. *)
Definition completes (env : Env) (k : step) : bool :=
  match k with
  | Connect => resolved (connect env)
  | WaitForParticipant => resolved (wait_for_participant env)
  | MakeModel => constructed (RealtimeModel_init env)
  | MakeSession => constructed (AgentSession_init env)
  | MakeAgent => constructed (Agent_init env)
  | StartSession => resolved (start env)
  | GenerateReply => resolved (generate_reply env)
  | FinalWait => false
  end.

(** Every call before [k] comes back, so the run gets to [k]. *)
Definition reaches (env : Env) (k : step) : bool :=
  forallb (completes env) (take (step_index k) steps).

(** The run gets to [k] and the call there raises [e]. *)
Definition fails_at (env : Env) (k : step) (e : exn) : Prop :=
  reaches env k = true ∧ raised_at env k = Some e.

Definition is_error_record (ev : event) : bool :=
  match ev with LogError _ _ => true | _ => false end.

Definition is_start (ev : event) : bool :=
  match ev with SessionStart _ _ _ => true | _ => false end.

Definition is_generate_reply (ev : event) : bool :=
  match ev with SessionGenerateReply _ _ => true | _ => false end.

Fixpoint count (p : event → bool) (tr : list event) : nat :=
  match tr with
  | [] => 0
  | ev :: tr' => (if p ev then 1 else 0) + count p tr'
  end.

(** The position of the first event that satisfies [p]. *)
Fixpoint position (p : event → bool) (tr : list event) : option nat :=
  match tr with
  | [] => None
  | ev :: tr' => if p ev then Some 0 else S <$> position p tr'
  end.

Definition is_final_wait (ev : event) : bool :=
  match ev with AwaitFuture => true | _ => false end.

Definition is_new_model (ev : event) : bool :=
  match ev with NewRealtimeModel _ _ => true | _ => false end.

(** *** The texts and objects of a run in which nothing fails *)

Definition MODEL_ID : string := "gemini-2.0-flash-exp".
Definition MODEL_INSTRUCTIONS : string := "You are Vanta, a helpful assistant.".
Definition AGENT_INSTRUCTIONS : string := "You are Vanta.".
Definition GREETING : string :=
  "Say hello to the user and introduce yourself as Vanta.".

Definition the_model : RealtimeModel :=
  {| model := MODEL_ID; instructions := MODEL_INSTRUCTIONS |}.
Definition the_session : AgentSession := {| llm := the_model |}.
Definition the_agent : Agent := {| agent_instructions := AGENT_INSTRUCTIONS |}.

(** The calls and log records of such a run, up to the final wait. *)
Definition full_trace (ctx : JobContext) (p : Participant) : list event :=
  [LogInfo ("Connecting to room " ++ name (room ctx));
   CtxConnect;
   CtxWaitForParticipant;
   LogInfo ("Participant connected: " ++ identity p);
   NewRealtimeModel MODEL_ID MODEL_INSTRUCTIONS;
   NewAgentSession the_model;
   NewAgent AGENT_INSTRUCTIONS;
   SessionStart the_session (room ctx) the_agent;
   SessionGenerateReply the_session GREETING;
   AwaitFuture].

(** The number of calls and log records up to and including the call at a
    call point. *)
Definition events_through (k : step) : nat :=
  match k with
  | Connect => 2 | WaitForParticipant => 3 | MakeModel => 5 | MakeSession => 6
  | MakeAgent => 7 | StartSession => 8 | GenerateReply => 9 | FinalWait => 10
  end.

Definition nobody : Participant := {| identity := "" |}.

(** *** Some fake contexts *)

Definition alice : Participant := {| identity := "alice" |}.
Definition lobby : JobContext := {| room := {| name := "lobby" |} |}.

(** Everything resolves at once; the task is never cancelled. *)
Definition env_ok : Env :=
  {| connect := Resolves tt;
     wait_for_participant := Resolves alice;
     RealtimeModel_init := None;
     AgentSession_init := None;
     Agent_init := None;
     start := Resolves tt;
     generate_reply := Resolves tt;
     future := Never |}.

(** The room refuses the connection. *)
Definition refused : exn := Exn (Exception_ "ConnectionError") "connection refused".
Definition env_refused : Env :=
  {| connect := Raises refused;
     wait_for_participant := Resolves alice;
     RealtimeModel_init := None;
     AgentSession_init := None;
     Agent_init := None;
     start := Resolves tt;
     generate_reply := Resolves tt;
     future := Never |}.

(** The task is cancelled while it waits for a participant. *)
Definition cancelled : exn := Exn CancelledError "".
Definition env_cancelled : Env :=
  {| connect := Resolves tt;
     wait_for_participant := Raises cancelled;
     RealtimeModel_init := None;
     AgentSession_init := None;
     Agent_init := None;
     start := Resolves tt;
     generate_reply := Resolves tt;
     future := Never |}.

(** *** Which call a record belongs to, and calls that never complete *)

(** The event a call point leaves in the record of calls. *)
Definition is_call (k : step) (ev : event) : bool :=
  match k, ev with
  | Connect, CtxConnect
  | WaitForParticipant, CtxWaitForParticipant
  | MakeModel, NewRealtimeModel _ _
  | MakeSession, NewAgentSession _
  | MakeAgent, NewAgent _
  | StartSession, SessionStart _ _ _
  | GenerateReply, SessionGenerateReply _ _
  | FinalWait, AwaitFuture => true
  | _, _ => false
  end.

Definition pending {A} (o : outcome A) : bool :=
  match o with Pends => true | _ => false end.

(** The awaited call at a call point never completes. *)
Definition pends_at (env : Env) (k : step) : bool :=
  match k with
  | Connect => pending (connect env)
  | WaitForParticipant => pending (wait_for_participant env)
  | StartSession => pending (start env)
  | GenerateReply => pending (generate_reply env)
  | FinalWait => match future env with Never => true | _ => false end
  | MakeModel | MakeSession | MakeAgent => false
  end.

(** Nobody ever joins the room. *)
Definition env_waiting : Env :=
  {| connect := Resolves tt;
     wait_for_participant := Pends;
     RealtimeModel_init := None;
     AgentSession_init := None;
     Agent_init := None;
     start := Resolves tt;
     generate_reply := Resolves tt;
     future := Never |}.

End Orchestrator.

(** ** Facts about the file system and [makedirs] *)

Module FileSystemFacts.
Import Py Fetcher.
#[local] Open Scope list_scope.

Section Paths.
Implicit Types (d : gmap string node) (cs h : list string) (c t : string).

Lemma mkdir_exist_ok_single d t :
  ensure_dirs d [t] = mkdir_exist_ok d [t].
Proof.
  unfold mkdir_exist_ok, isdir_in. simpl.
  destruct (d !! t) as [[b|dc]|] eqn:E; simpl; try done.
  by rewrite insert_id.
Qed.

Lemma mkdir_exist_ok_cons d c dc cs :
  d !! c = Some (Dir dc) → cs ≠ [] →
  mkdir_exist_ok d (c :: cs) =
    match mkdir_exist_ok dc cs with
    | Ok dc' => Ok (<[c := Dir dc']> d)
    | Err e => Err e
    end.
Proof.
  intros E Hne. unfold mkdir_exist_ok, isdir_in. simpl. rewrite E.
  destruct cs as [|c' cs']; [done|].
  destruct (mkdir_in dc (c' :: cs')); [done|].
  destruct (stat_in dc (c' :: cs')) as [[?|?]|]; try done.
  by rewrite insert_id.
Qed.

(** One more name on the path is one more [mkdir]. *)
Lemma ensure_dirs_snoc h : ∀ d t,
  ensure_dirs d (h ++ [t]) =
    match ensure_dirs d h with
    | Ok d1 => mkdir_exist_ok d1 (h ++ [t])
    | Err EEXIST => Err ENOTDIR
    | Err e => Err e
    end.
Proof.
  induction h as [|c h IH]; intros d t.
  - apply mkdir_exist_ok_single.
  - assert (Hne : h ++ [t] ≠ []) by (by destruct h).
    change ((c :: h) ++ [t]) with (c :: (h ++ [t])).
    cbn [ensure_dirs]. destruct (d !! c) as [[b|dc]|] eqn:E.
    + destruct h; simpl; done.
    + rewrite IH. destruct (ensure_dirs dc h) as [d1|e].
      * rewrite (mkdir_exist_ok_cons _ c d1); [|by rewrite lookup_insert_eq|done].
        destruct (mkdir_exist_ok d1 (h ++ [t])); [|done].
        by rewrite insert_insert_eq.
      * by destruct e.
    + rewrite IH. destruct (ensure_dirs ∅ h) as [d1|e].
      * rewrite (mkdir_exist_ok_cons _ c d1); [|by rewrite lookup_insert_eq|done].
        destruct (mkdir_exist_ok d1 (h ++ [t])); [|done].
        by rewrite insert_insert_eq.
      * by destruct e.
Qed.

(** A directory that is there already is left as it is. *)
Lemma ensure_dirs_isdir cs : ∀ d, isdir_in d cs = true → ensure_dirs d cs = Ok d.
Proof.
  induction cs as [|c cs IH]; intros d; [done|].
  unfold isdir_in. simpl. destruct (d !! c) as [[b|dc]|] eqn:E; try done.
  - by destruct cs.
  - intros H. rewrite IH; [|done]. by rewrite insert_id.
Qed.

Lemma ensure_dirs_EEXIST cs : ∀ d, ensure_dirs d cs = Err EEXIST → exists_in d cs = true.
Proof.
  induction cs as [|c cs IH]; intros d; [done|].
  unfold exists_in. simpl. destruct (d !! c) as [[b|dc]|] eqn:E.
  - by destruct cs.
  - destruct (ensure_dirs dc cs) eqn:E'; [done|]. intros [= ->]. by apply IH.
  - destruct (ensure_dirs ∅ cs) eqn:E'; [done|]. intros [= ->].
    destruct cs; [done|]. apply IH in E'.
    unfold exists_in in E'. simpl in E'. by rewrite lookup_empty in E'.
Qed.

(** Where the parent exists, as a directory or as a file, the last two
    lines of [makedirs] decide alone. *)
Lemma ensure_dirs_parent_exists h : ∀ d t,
  exists_in d h = true → ensure_dirs d (h ++ [t]) = mkdir_exist_ok d (h ++ [t]).
Proof.
  induction h as [|c h IH]; intros d t.
  - intros _. apply mkdir_exist_ok_single.
  - assert (Hne : h ++ [t] ≠ []) by (by destruct h).
    change ((c :: h) ++ [t]) with (c :: (h ++ [t])).
    unfold exists_in. cbn [ensure_dirs stat_in].
    destruct (d !! c) as [[b|dc]|] eqn:E; try done.
    + destruct h; [|done]. intros _.
      unfold mkdir_exist_ok, isdir_in. simpl. by rewrite E.
    + intros Hex. rewrite IH; [|done].
      by rewrite (mkdir_exist_ok_cons d c dc).
Qed.

(** Below a directory that [ensure_dirs] had to create, [mkdir] succeeds. *)
Lemma mkdir_in_fresh h : ∀ d d1 t,
  exists_in d h = false → ensure_dirs d h = Ok d1 →
  ∃ d2, mkdir_in d1 (h ++ [t]) = Ok d2.
Proof.
  induction h as [|c h IH]; intros d d1 t; [done|].
  assert (Hne : h ++ [t] ≠ []) by (by destruct h).
  change ((c :: h) ++ [t]) with (c :: (h ++ [t])).
  unfold exists_in. cbn [ensure_dirs stat_in mkdir_in].
  destruct (d !! c) as [[b|dc]|] eqn:E.
  - by destruct h.
  - intros Hex. destruct (ensure_dirs dc h) as [dc1|] eqn:Een; [|done].
    intros [= <-]. rewrite lookup_insert_eq.
    destruct (IH dc dc1 t Hex Een) as [d2 ->].
    destruct (h ++ [t]); [done|]. eauto.
  - intros _. destruct (ensure_dirs ∅ h) as [e1|] eqn:Een; [|done].
    intros [= <-]. rewrite lookup_insert_eq.
    destruct h as [|c' h'].
    + injection Een as <-. simpl. rewrite lookup_empty. eauto.
    + destruct (IH ∅ e1 t) as [d2 Hd2]; [|done|].
      { unfold exists_in. simpl. by rewrite lookup_empty. }
      rewrite Hd2. simpl. eauto.
Qed.

Lemma os_mkdir_exist_ok cs d :
  cs ≠ [] →
  try_except (os_mkdir cs) is_OSError
    (λ e, (isdir <- path_isdir cs ;;
           if negb true || negb isdir then raise e else ret tt)%py) d =
  match mkdir_exist_ok d cs with
  | Ok d' => (d', Done tt)
  | Err e => (d, Raised (os_error e))
  end.
Proof.
  intros Hne. unfold try_except, os_mkdir, mkdir_exist_ok.
  destruct cs as [|c cs]; [done|].
  destruct (mkdir_in d (c :: cs)) as [d'|e]; [done|].
  replace (is_OSError (exn_class_of (os_error e))) with true by (by destruct e).
  unfold bind, path_isdir, get, ret, raise. simpl.
  by destruct (isdir_in d (c :: cs)).
Qed.

(** [os.makedirs(name, exist_ok=True)] adds the missing directories of the
    path, or raises and changes nothing when a regular file is in the way. *)
Lemma makedirs_ensure_dirs cs : ∀ d,
  cs ≠ [] →
  makedirs cs true d =
    match ensure_dirs d cs with
    | Ok d' => (d', Done tt)
    | Err e => (d, Raised (os_error e))
    end.
Proof.
  unfold makedirs.
  induction cs as [|t h IH] using rev_ind; intros d Hne; [done|].
  rewrite rev_unit. cbn [makedirs_rev].
  rewrite <- rev_unit, !rev_involutive.
  unfold bind at 1. unfold path_exists at 1. unfold bind at 1, get, ret.
  destruct h as [|c0 h0] using rev_ind.
  - simpl rev. unfold bind at 1, ret. rewrite os_mkdir_exist_ok; [|done].
    change ([] ++ [t]) with [t]. by rewrite <- mkdir_exist_ok_single.
  - clear IHh0. set (h := h0 ++ [c0]) in *.
    assert (Hh : h ≠ []) by (subst h; by destruct h0).
    replace (match h with [] => false | _ :: _ => exists_in d h end)
      with (exists_in d h) by (by destruct h).
    replace (rev h) with (c0 :: rev h0) by (subst h; by rewrite rev_unit).
    destruct (exists_in d h) eqn:Hex; cbn [negb].
    + unfold bind at 1, ret. rewrite os_mkdir_exist_ok; [|by destruct h].
      by rewrite ensure_dirs_parent_exists.
    + replace (c0 :: rev h0) with (rev h) by (subst h; by rewrite rev_unit).
      unfold bind at 1, try_except at 1. rewrite IH; [|done].
      rewrite ensure_dirs_snoc.
      destruct (ensure_dirs d h) as [d1|e] eqn:Een.
      * rewrite os_mkdir_exist_ok; [|by destruct h].
        destruct (mkdir_in_fresh h d d1 t Hex Een) as [d2 Hd2].
        unfold mkdir_exist_ok. by rewrite Hd2.
      * destruct e; try done.
        apply ensure_dirs_EEXIST in Een. congruence.
Qed.

(** Only a regular file on the path makes [ensure_dirs] fail. *)
Lemma ensure_dirs_unobstructed cs : ∀ d,
  obstructed d cs = false → ∃ d', ensure_dirs d cs = Ok d'.
Proof.
  induction cs as [|c cs IH]; intros d; [by eexists|].
  simpl. destruct (d !! c) as [[b|dc]|] eqn:E; [done| |].
  - intros Hob. destruct (IH dc Hob) as [d' ->]. by eexists.
  - intros _. destruct (IH ∅) as [d' ->]; [|by eexists].
    destruct cs; [done|]. simpl. by rewrite lookup_empty.
Qed.

Lemma ensure_dirs_obstructed cs : ∀ d,
  obstructed d cs = true → ∃ e, ensure_dirs d cs = Err e.
Proof.
  induction cs as [|c cs IH]; intros d; [done|].
  simpl. destruct (d !! c) as [[b|dc]|] eqn:E; [by eexists| |done].
  intros Hob. destruct (IH dc Hob) as [e ->]. by eexists.
Qed.

(** After [ensure_dirs] the directory and each of its parents is there. *)
Lemma ensure_dirs_creates cs : ∀ d d' n,
  ensure_dirs d cs = Ok d' → isdir_in d' (take n cs) = true.
Proof.
  induction cs as [|c cs IH]; intros d d' n.
  - by destruct n.
  - destruct n as [|n]; [done|].
    simpl. unfold isdir_in. simpl.
    destruct (d !! c) as [[b|dc]|] eqn:E; [done| |].
    + destruct (ensure_dirs dc cs) as [d1|] eqn:E1; [|done].
      intros [= <-]. rewrite lookup_insert_eq. by apply (IH dc).
    + destruct (ensure_dirs ∅ cs) as [d1|] eqn:E1; [|done].
      intros [= <-]. rewrite lookup_insert_eq. by apply (IH ∅).
Qed.

(** [ensure_dirs] neither adds nor removes what is below the directory. *)
Lemma ensure_dirs_exists_below h : ∀ d d1 t,
  ensure_dirs d h = Ok d1 → exists_in d1 (h ++ [t]) = exists_in d (h ++ [t]).
Proof.
  induction h as [|c h IH]; intros d d1 t.
  - by intros [= <-].
  - assert (Hne : h ++ [t] ≠ []) by (by destruct h).
    change ((c :: h) ++ [t]) with (c :: (h ++ [t])).
    unfold exists_in. cbn [ensure_dirs stat_in].
    destruct (d !! c) as [[b|dc]|] eqn:E; [done| |].
    + destruct (ensure_dirs dc h) as [dc1|] eqn:Een; [|done].
      intros [= <-]. rewrite lookup_insert_eq. by apply IH.
    + destruct (ensure_dirs ∅ h) as [e1|] eqn:Een; [|done].
      intros [= <-]. rewrite lookup_insert_eq.
      specialize (IH ∅ e1 t Een). unfold exists_in in IH. rewrite IH.
      destruct (h ++ [t]); [done|]. simpl. by rewrite lookup_empty.
Qed.

(** Whatever exists at a path has a directory as its parent. *)
Lemma exists_in_parent h : ∀ d t, exists_in d (h ++ [t]) = true → isdir_in d h = true.
Proof.
  induction h as [|c h IH]; intros d t; [done|].
  change ((c :: h) ++ [t]) with (c :: (h ++ [t])).
  unfold exists_in, isdir_in. simpl.
  destruct (d !! c) as [[b|dc]|] eqn:E; try done.
  - by destruct h.
  - apply IH.
Qed.

(** Writing a file that is not there yet, in a directory that is. *)
Lemma write_in_new h : ∀ d t data,
  isdir_in d h = true → exists_in d (h ++ [t]) = false →
  ∃ d', write_in d (h ++ [t]) data = Ok d' ∧ read_file d' (h ++ [t]) = Some data.
Proof.
  induction h as [|c h IH]; intros d t data.
  - intros _. unfold exists_in, read_file. simpl.
    destruct (d !! t) as [[b|dc]|] eqn:E; try done.
    intros _. eexists. split; [done|]. by rewrite lookup_insert_eq.
  - assert (Hne : h ++ [t] ≠ []) by (by destruct h).
    change ((c :: h) ++ [t]) with (c :: (h ++ [t])).
    unfold exists_in, isdir_in, read_file. simpl.
    destruct (d !! c) as [[b|dc]|] eqn:E; try done.
    + by destruct h.
    + intros Hd Hex. destruct (IH dc t data Hd Hex) as (d' & Hw & Hr).
      rewrite Hw. destruct (h ++ [t]) as [|c' r] eqn:Er; [done|].
      eexists. split; [done|]. by rewrite lookup_insert_eq.
Qed.

(** Writing a file removes no directory. *)
Lemma write_in_isdir cs : ∀ d d' data q,
  write_in d cs data = Ok d' → isdir_in d q = true → isdir_in d' q = true.
Proof.
  induction cs as [|c cs IH]; intros d d' data q; [done|].
  destruct q as [|c2 q]; [done|].
  unfold isdir_in. simpl.
  destruct (decide (c = c2)) as [<-|Hne].
  - destruct (d !! c) as [[b|dc]|] eqn:E.
    + by destruct q, cs.
    + destruct cs as [|c' cs']; [done|].
      destruct (write_in dc (c' :: cs') data) as [dc'|] eqn:Ew; [|done].
      intros [= <-]. rewrite lookup_insert_eq. by eapply IH.
    + done.
  - intros Hw. assert (d' !! c2 = d !! c2) as ->; [|done].
    destruct (d !! c) as [[b|dc]|] eqn:E; destruct cs as [|c' cs']; try done;
      try (injection Hw as <-; by rewrite lookup_insert_ne).
    destruct (write_in dc (c' :: cs') data); [|done].
    injection Hw as <-. by rewrite lookup_insert_ne.
Qed.

Lemma read_file_exists d cs b : read_file d cs = Some b → exists_in d cs = true.
Proof. unfold read_file, exists_in. by destruct (stat_in d cs) as [[?|?]|]. Qed.

(** With a regular file on its path, a directory is not there. *)
Lemma obstructed_not_isdir cs : ∀ d, obstructed d cs = true → isdir_in d cs = false.
Proof.
  induction cs as [|c cs IH]; intros d; [done|].
  unfold isdir_in. simpl. destruct (d !! c) as [[b|dc]|] eqn:E; try done.
  - by destruct cs.
  - apply IH.
Qed.

(** [ensure_dirs] leaves every regular file with its bytes. *)
Lemma ensure_dirs_read_file cs : ∀ d d' (q : list string) b,
  ensure_dirs d cs = Ok d' → read_file d q = Some b → read_file d' q = Some b.
Proof.
  induction cs as [|c cs IH]; intros d d' q b.
  - by intros [= <-].
  - destruct q as [|c2 q]; [done|].
    unfold read_file. cbn [ensure_dirs stat_in].
    destruct (decide (c = c2)) as [<-|Hne].
    + destruct (d !! c) as [[b0|dc]|] eqn:E; [done| |done].
      destruct (ensure_dirs dc cs) as [dc'|] eqn:Een; [|done].
      intros [= <-]. rewrite lookup_insert_eq. by apply IH.
    + intros Hen. assert (d' !! c2 = d !! c2) as ->; [|done].
      destruct (d !! c) as [[b0|dc]|] eqn:E; [done| |].
      * destruct (ensure_dirs dc cs); [|done].
        injection Hen as <-. by rewrite lookup_insert_ne.
      * destruct (ensure_dirs ∅ cs); [|done].
        injection Hen as <-. by rewrite lookup_insert_ne.
Qed.

(** [ensure_dirs] removes no directory. *)
Lemma ensure_dirs_isdir_kept cs : ∀ d d' (q : list string),
  ensure_dirs d cs = Ok d' → isdir_in d q = true → isdir_in d' q = true.
Proof.
  induction cs as [|c cs IH]; intros d d' q.
  - by intros [= <-].
  - destruct q as [|c2 q]; [done|].
    unfold isdir_in. cbn [ensure_dirs stat_in].
    destruct (decide (c = c2)) as [<-|Hne].
    + destruct (d !! c) as [[b0|dc]|] eqn:E; [done| |done].
      destruct (ensure_dirs dc cs) as [dc'|] eqn:Een; [|done].
      intros [= <-]. rewrite lookup_insert_eq. by apply IH.
    + intros Hen. assert (d' !! c2 = d !! c2) as ->; [|done].
      destruct (d !! c) as [[b0|dc]|] eqn:E; [done| |].
      * destruct (ensure_dirs dc cs); [|done].
        injection Hen as <-. by rewrite lookup_insert_ne.
      * destruct (ensure_dirs ∅ cs); [|done].
        injection Hen as <-. by rewrite lookup_insert_ne.
Qed.

(** Writing a file that was not there leaves every other file alone. *)
Lemma write_in_read_file cs : ∀ d d' data (q : list string) b,
  write_in d cs data = Ok d' → exists_in d cs = false →
  read_file d q = Some b → read_file d' q = Some b.
Proof.
  induction cs as [|c cs IH]; intros d d' data q b; [done|].
  destruct q as [|c2 q]; [done|].
  unfold read_file, exists_in. cbn [write_in stat_in].
  destruct (decide (c = c2)) as [<-|Hne].
  - destruct (d !! c) as [[b0|dc]|] eqn:E; [by destruct cs| |done].
    destruct cs as [|c' cs']; [done|].
    destruct (write_in dc (c' :: cs') data) as [dc'|] eqn:Ew; [|done].
    intros [= <-] Hex. rewrite lookup_insert_eq. by eapply IH.
  - intros Hw _. assert (d' !! c2 = d !! c2) as ->; [|done].
    destruct (d !! c) as [[b0|dc]|] eqn:E; destruct cs as [|c' cs']; try done;
      try (injection Hw as <-; by rewrite lookup_insert_ne).
    destruct (write_in dc (c' :: cs') data); [|done].
    injection Hw as <-. by rewrite lookup_insert_ne.
Qed.

End Paths.

End FileSystemFacts.

(** ** The asset fetcher: what [main] does *)

Module FetcherFacts.
Import Py Fetcher FileSystemFacts.
#[local] Open Scope list_scope.

Section Script.
Implicit Types (w : world) (d : gmap string node).

Lemma dirname_OUTPUT_PATH : os_path_dirname OUTPUT_PATH = DIRNAME.
Proof. reflexivity. Qed.

Lemma components_dirname : components (os_path_dirname OUTPUT_PATH) = DIR.
Proof. reflexivity. Qed.

Lemma components_OUTPUT_PATH : components OUTPUT_PATH = FILE.
Proof. reflexivity. Qed.

Lemma fetches_app tr1 tr2 : fetches (tr1 ++ tr2) = fetches tr1 + fetches tr2.
Proof. induction tr1 as [|ev tr1 IH]; [done|]. simpl. rewrite IH. lia. Qed.

Lemma os_makedirs_dirname w :
  os_makedirs (os_path_dirname OUTPUT_PATH) true w =
    match ensure_dirs (cwd w) DIR with
    | Ok d' => (World d' (net w) (trace w ++ [EvMakedirs DIRNAME]), Done tt)
    | Err e => (World (cwd w) (net w) (trace w ++ [EvMakedirs DIRNAME]),
                Raised (os_error e))
    end.
Proof.
  unfold os_makedirs, Py.bind, log, modify, on_fs.
  rewrite components_dirname, dirname_OUTPUT_PATH.
  cbn [cwd net trace]. rewrite makedirs_ensure_dirs; [|done].
  by destruct (ensure_dirs (cwd w) DIR).
Qed.

Ltac tidy_world :=
  repeat (progress (cbn [cwd net trace app]) || rewrite <- app_assoc).

(** The run of [main], case by case. *)
Lemma main_cases w :
  main w =
    match ensure_dirs (cwd w) DIR with
    | Err e => (World (cwd w) (net w) (trace w ++ [EvMakedirs DIRNAME]),
                Raised (os_error e))
    | Ok d1 =>
        if exists_in d1 FILE
        then (World d1 (net w)
                (trace w ++ [EvMakedirs DIRNAME; EvExists OUTPUT_PATH true;
                             EvPrint MSG_EXISTS]), Done tt)
        else
          let tr2 := trace w ++ [EvMakedirs DIRNAME; EvExists OUTPUT_PATH false;
                                 EvPrint MSG_DOWNLOADING;
                                 EvUrlretrieve MODEL_URL OUTPUT_PATH] in
          match net w with
          | [] => (World d1 [] tr2, Raised unreachable)
          | Failed e :: rest => (World d1 rest tr2, Raised e)
          | Served body :: rest =>
              match write_in d1 FILE body with
              | Ok d2 => (World d2 rest (tr2 ++ [EvPrint MSG_DOWNLOADED]), Done tt)
              | Err e => (World d1 rest tr2, Raised (os_error e))
              end
          | Interrupted written e :: rest =>
              match write_in d1 FILE written with
              | Ok d2 => (World d2 rest tr2, Raised e)
              | Err e' => (World d1 rest tr2, Raised (os_error e'))
              end
          end
    end.
Proof.
  unfold main. unfold Py.bind at 1. rewrite os_makedirs_dirname.
  destruct (ensure_dirs (cwd w) DIR) as [d1|e]; [|done].
  unfold os_path_exists, path_exists, on_fs, Py.bind, get, ret, log, modify.
  rewrite components_OUTPUT_PATH.
  cbn [cwd net trace].
  change (match FILE with [] => false | _ :: _ => exists_in d1 FILE end)
    with (exists_in d1 FILE).
  unfold print, urlretrieve, urlopen, write_file, on_fs, Py.bind, log, modify, raise.
  rewrite components_OUTPUT_PATH.
  repeat cbn [cwd net trace].
  destruct (exists_in d1 FILE); [tidy_world; done|].
  destruct (net w) as [|[body|e|written e] rest]; tidy_world; try done.
  - destruct (write_in d1 FILE body); tidy_world; done.
  - destruct (write_in d1 FILE written); tidy_world; done.
Qed.

(** With the output path present, [main] looks and leaves. *)
Lemma main_present w :
  exists_in (cwd w) FILE = true →
  main w = (World (cwd w) (net w)
              (trace w ++ [EvMakedirs DIRNAME; EvExists OUTPUT_PATH true;
                           EvPrint MSG_EXISTS]), Done tt).
Proof.
  intros Hex. rewrite main_cases.
  rewrite ensure_dirs_isdir; [|by apply (exists_in_parent DIR _ "silero_vad.onnx")].
  by rewrite Hex.
Qed.

Lemma isdir_DIR_after d d1 : ensure_dirs d DIR = Ok d1 → isdir_in d1 DIR = true.
Proof. intros H. by apply (ensure_dirs_creates DIR d d1 (length DIR)). Qed.

Lemma exists_FILE_after d d1 :
  ensure_dirs d DIR = Ok d1 → exists_in d1 FILE = exists_in d FILE.
Proof. apply ensure_dirs_exists_below. Qed.

(** After [makedirs], the download finds a place to write. *)
Lemma write_after_ensure d d1 data :
  ensure_dirs d DIR = Ok d1 → exists_in d1 FILE = false →
  ∃ d2, write_in d1 FILE data = Ok d2 ∧ read_file d2 FILE = Some data.
Proof.
  intros Hen Hex. apply write_in_new; [by eapply isdir_DIR_after|done].
Qed.

Ltac not_in_events :=
  let H := fresh in
  intros H;
  repeat (apply elem_of_cons in H as [H|H]; [discriminate H|]);
  by apply elem_of_nil in H.

(** The scenario of the specification: the destination is absent and the
    server answers with [ABC].  One run leaves exactly [ABC] in the file;
    a second run makes no request and leaves the file as it is. *)
Example scenario_ABC :
  let w1 := (main world_fresh).1 in
  let w2 := (main w1).1 in
  read_file (cwd w1) FILE = Some ABC
  ∧ fetches (trace w1) = 1
  ∧ read_file (cwd w2) FILE = Some ABC
  ∧ fetches (trace w2) = 1.
Proof. vm_compute. done. Qed.

(** *** C1 *)

(** Claim C1 as stated fails: from a state in which the model file is
    present, two runs in succession perform no network fetch at all; and
    without a network, each of the two runs tries to fetch, which makes
    two.  Neither is "exactly one". *)
Lemma two_runs_not_one_fetch :
  fetches (trace (main (main world_with_model).1).1) = 0
  ∧ fetches (trace (main (main world_offline).1).1) = 2.
Proof. vm_compute. done. Qed.

(** Claim C1, amended: whenever the first run returns normally, the second
    run returns normally without a network fetch and leaves the file
    system, and with it the bytes of the output file, as the first run
    left it; the two runs together perform exactly one fetch when the
    output path did not exist at the start, and none when it did. *)
Theorem second_run_is_noop w w1 w2 r2 :
  main w = (w1, Done tt) → main w1 = (w2, r2) →
  r2 = Done tt
  ∧ cwd w2 = cwd w1
  ∧ read_file (cwd w2) FILE = read_file (cwd w1) FILE
  ∧ fetches (trace w2) = fetches (trace w1)
  ∧ fetches (trace w2) = fetches (trace w) + (if exists_in (cwd w) FILE then 0 else 1).
Proof.
  intros H1 H2.
  assert (Hex1 : exists_in (cwd w1) FILE = true
                 ∧ fetches (trace w1)
                   = fetches (trace w) + (if exists_in (cwd w) FILE then 0 else 1)).
  { rewrite main_cases in H1.
    destruct (ensure_dirs (cwd w) DIR) as [d1|e] eqn:Hd1; [|done].
    rewrite <- (exists_FILE_after _ _ Hd1).
    destruct (exists_in d1 FILE) eqn:Hex.
    { injection H1 as <-. cbn [cwd trace]. rewrite fetches_app. simpl.
      split; [done|lia]. }
    cbv zeta in H1.
    destruct (net w) as [|[body|e|written e] rest]; try done.
    - destruct (write_after_ensure _ _ body Hd1 Hex) as (d2 & Hw & Hr).
      rewrite Hw in H1. injection H1 as <-. cbn [cwd trace].
      split; [by eapply read_file_exists|].
      rewrite !fetches_app. simpl. lia.
    - by destruct (write_in d1 FILE written). }
  destruct Hex1 as [Hex1 Hf1].
  rewrite main_present in H2; [|done]. injection H2 as <- <-. cbn [cwd trace].
  rewrite fetches_app, Hf1. simpl. split_and!; try done; lia.
Qed.

Lemma second_run_is_noop_witness :
  (main (main world_fresh).1).2 = Done tt
  ∧ cwd (main (main world_fresh).1).1 = cwd (main world_fresh).1
  ∧ read_file (cwd (main (main world_fresh).1).1) FILE
    = read_file (cwd (main world_fresh).1) FILE
  ∧ fetches (trace (main (main world_fresh).1).1) = fetches (trace (main world_fresh).1)
  ∧ fetches (trace (main (main world_fresh).1).1)
    = fetches (trace world_fresh)
      + (if exists_in (cwd world_fresh) FILE then 0 else 1).
Proof.
  apply (second_run_is_noop world_fresh (main world_fresh).1
           (main (main world_fresh).1).1 (main (main world_fresh).1).2).
  - vm_compute. reflexivity.
  - vm_compute. reflexivity.
Defined.

(** *** C3 *)

(** Claim C3: if the output path exists, whatever it holds, [main] makes no
    network call: it checks, prints the confirmation and returns; the
    pending responses, the number of fetches and the file system are as
    before. *)
Theorem existing_file_no_network w :
  exists_in (cwd w) FILE = true →
  ∃ w', main w = (w', Done tt)
        ∧ trace w' = trace w ++ [EvMakedirs DIRNAME; EvExists OUTPUT_PATH true;
                                 EvPrint MSG_EXISTS]
        ∧ fetches (trace w') = fetches (trace w)
        ∧ net w' = net w
        ∧ cwd w' = cwd w.
Proof.
  intros Hex. eexists. split; [by apply main_present|].
  cbn [cwd net trace]. rewrite fetches_app. simpl. auto with lia.
Qed.

Lemma existing_file_no_network_witness :
  ∃ w', main world_with_model = (w', Done tt)
        ∧ trace w' = trace world_with_model
                       ++ [EvMakedirs DIRNAME; EvExists OUTPUT_PATH true;
                           EvPrint MSG_EXISTS]
        ∧ fetches (trace w') = fetches (trace world_with_model)
        ∧ net w' = net world_with_model
        ∧ cwd w' = cwd world_with_model.
Proof. apply (existing_file_no_network world_with_model). reflexivity. Defined.

(** *** C5 *)

(** Claim C5 as stated fails in its last part: when the transfer breaks
    after two bytes, the run raises, and the destination, absent before,
    now holds those two bytes. *)
Lemma failed_fetch_leaves_partial_file :
  exists_in (cwd world_truncated) FILE = false
  ∧ (main world_truncated).2 = Raised too_short
  ∧ read_file (cwd (main world_truncated).1) FILE = Some [Byte.x41; Byte.x42].
Proof. vm_compute. done. Qed.

(** Claim C5, amended: every network or file-system error that strikes
    the download propagates.  Whenever the destination directory can be
    created, the output path does not exist, and the request runs into an
    error [e], before the transfer or in the middle of it, [main] raises
    [e] after the announcement and the one [urlretrieve] call, without
    printing the confirmation, and the script ends with status 1 and the
    traceback of [e].  Nothing is cleaned up: when the URL could not be
    opened there is no file at the destination, and when the transfer
    broke the destination holds exactly the bytes written until then. *)
Theorem failed_fetch_propagates w e left :
  obstructed (cwd w) DIR = false →
  exists_in (cwd w) FILE = false →
  download_error w = Some (e, left) →
  isinstance_Exception e = true →
  ∃ w', main w = (w', Raised e)
        ∧ run_script w = (w', Exit 1 (Some e))
        ∧ trace w' = trace w ++ [EvMakedirs DIRNAME; EvExists OUTPUT_PATH false;
                                 EvPrint MSG_DOWNLOADING;
                                 EvUrlretrieve MODEL_URL OUTPUT_PATH]
        ∧ net w' = tail (net w)
        ∧ read_file (cwd w') FILE = left
        ∧ exists_in (cwd w') FILE = match left with Some _ => true | None => false end.
Proof.
  intros Hob Hex Herr He.
  assert (∃ w', main w = (w', Raised e)
                ∧ trace w' = trace w ++ [EvMakedirs DIRNAME; EvExists OUTPUT_PATH false;
                                         EvPrint MSG_DOWNLOADING;
                                         EvUrlretrieve MODEL_URL OUTPUT_PATH]
                ∧ net w' = tail (net w)
                ∧ read_file (cwd w') FILE = left
                ∧ exists_in (cwd w') FILE = match left with Some _ => true | None => false end)
    as (w' & Hmain & Hrest).
  { rewrite main_cases.
    destruct (ensure_dirs_unobstructed _ _ Hob) as [d1 Hd1]. rewrite Hd1.
    assert (Hex1 : exists_in d1 FILE = false) by (by rewrite (exists_FILE_after _ _ Hd1)).
    rewrite Hex1. cbv zeta.
    assert (Hnone : read_file d1 FILE = None).
    { destruct (read_file d1 FILE) eqn:Hr; [|done].
      apply read_file_exists in Hr. congruence. }
    unfold download_error in Herr.
    destruct (net w) as [|[body|e0|written e0] rest]; try done.
    - injection Herr as <- <-. eexists. by split_and!.
    - injection Herr as <- <-. eexists. by split_and!.
    - injection Herr as <- <-.
      destruct (write_after_ensure _ _ written Hd1 Hex1) as (d2 & -> & Hr).
      eexists. split_and!; try done. cbn [cwd]. by eapply read_file_exists. }
  exists w'. split; [done|]. split; [|done].
  unfold run_script. by rewrite Hmain, He.
Qed.

Lemma failed_fetch_propagates_witness :
  ∃ w', main world_truncated = (w', Raised too_short)
        ∧ run_script world_truncated = (w', Exit 1 (Some too_short))
        ∧ trace w' = trace world_truncated
                       ++ [EvMakedirs DIRNAME; EvExists OUTPUT_PATH false;
                           EvPrint MSG_DOWNLOADING;
                           EvUrlretrieve MODEL_URL OUTPUT_PATH]
        ∧ net w' = tail (net world_truncated)
        ∧ read_file (cwd w') FILE = Some [Byte.x41; Byte.x42]
        ∧ exists_in (cwd w') FILE = true.
Proof.
  apply (failed_fetch_propagates world_truncated too_short (Some [Byte.x41; Byte.x42]));
    reflexivity.
Defined.

(** *** C7 *)

(** Claim C7 as stated fails: where [app] is a regular file, the
    destination directory is absent, [main] raises [NotADirectoryError],
    and the directory is still absent afterwards. *)
Lemma directory_not_created_below_a_file :
  isdir_in (cwd world_blocked) DIR = false
  ∧ (main world_blocked).2 = Raised (os_error ENOTDIR)
  ∧ isdir_in (cwd (main world_blocked).1) DIR = false.
Proof. vm_compute. done. Qed.

(** Claim C7, amended: unless a regular file sits on the path of the
    destination directory, the directory and all its parents exist after
    [main], whatever the network does, and an error, if any, comes from
    the download; a directory that was there before raises no error and is
    left untouched, the only change to the file system being the output
    file written by the download.  With a regular file on the path,
    [main] raises an [OSError] and changes nothing. *)
Theorem directory_created_unless_obstructed w w' r :
  main w = (w', r) →
  if obstructed (cwd w) DIR
  then (∃ e, r = Raised (os_error e)) ∧ cwd w' = cwd w
  else (∀ n, isdir_in (cwd w') (take n DIR) = true)
       ∧ (∀ e, r = Raised e → fetches (trace w') = S (fetches (trace w)))
       ∧ (isdir_in (cwd w) DIR = true →
            cwd w' = cwd w ∨ ∃ data, write_in (cwd w) FILE data = Ok (cwd w')).
Proof.
  intros Hmain. rewrite main_cases in Hmain.
  destruct (obstructed (cwd w) DIR) eqn:Hob.
  - destruct (ensure_dirs_obstructed _ _ Hob) as [e He]. rewrite He in Hmain.
    injection Hmain as <- <-. split; [by eexists|done].
  - destruct (ensure_dirs_unobstructed _ _ Hob) as [d1 Hd1]. rewrite Hd1 in Hmain.
    assert (Hsame : isdir_in (cwd w) DIR = true → d1 = cwd w).
    { intros Hd. apply ensure_dirs_isdir in Hd. congruence. }
    assert (Hpre : ∀ n, isdir_in d1 (take n DIR) = true)
      by (intros n; by eapply ensure_dirs_creates).
    assert (Hf : fetches (trace w ++ [EvMakedirs DIRNAME; EvExists OUTPUT_PATH false;
                    EvPrint MSG_DOWNLOADING; EvUrlretrieve MODEL_URL OUTPUT_PATH])
                 = S (fetches (trace w)))
      by (rewrite fetches_app; simpl; lia).
    destruct (exists_in d1 FILE) eqn:Hex.
    { injection Hmain as <- <-. cbn [cwd trace]. split_and!; [done|done|].
      intros Hd. left. by apply Hsame. }
    cbv zeta in Hmain.
    destruct (net w) as [|[body|e|written e] rest].
    + injection Hmain as <- <-. cbn [cwd trace]. split_and!; [done|done|].
      intros Hd. left. by apply Hsame.
    + destruct (write_after_ensure _ _ body Hd1 Hex) as (d2 & Hw & _).
      rewrite Hw in Hmain. injection Hmain as <- <-. cbn [cwd trace].
      split_and!; [|done|].
      * intros n. by eapply write_in_isdir.
      * intros Hd. right. exists body. by rewrite <- (Hsame Hd).
    + injection Hmain as <- <-. cbn [cwd trace]. split_and!; [done|done|].
      intros Hd. left. by apply Hsame.
    + destruct (write_after_ensure _ _ written Hd1 Hex) as (d2 & Hw & _).
      rewrite Hw in Hmain. injection Hmain as <- <-. cbn [cwd trace].
      split_and!; [|done|].
      * intros n. by eapply write_in_isdir.
      * intros Hd. right. exists written. by rewrite <- (Hsame Hd).
Qed.

Lemma directory_created_unless_obstructed_witness :
  if obstructed (cwd world_offline) DIR
  then (∃ e, (main world_offline).2 = Raised (os_error e))
       ∧ cwd (main world_offline).1 = cwd world_offline
  else (∀ n, isdir_in (cwd (main world_offline).1) (take n DIR) = true)
       ∧ (∀ e, (main world_offline).2 = Raised e →
            fetches (trace (main world_offline).1) = S (fetches (trace world_offline)))
       ∧ (isdir_in (cwd world_offline) DIR = true →
            cwd (main world_offline).1 = cwd world_offline
            ∨ ∃ data, write_in (cwd world_offline) FILE data
                      = Ok (cwd (main world_offline).1)).
Proof.
  apply (directory_created_unless_obstructed world_offline
           (main world_offline).1 (main world_offline).2).
  vm_compute. reflexivity.
Defined.

(** *** C10 *)

(** Claim C10: [main] creates the destination directory first, in every
    run and before it looks for the file: the [makedirs] call is the first
    call, and after the run the directory is there exactly when no regular
    file is in its way, whether or not anything was downloaded.  A run that
    makes no fetch changes nothing else, the file system is as before; in
    particular a run that finds the file present returns without a fetch,
    with the destination directory in place and the file system exactly as
    it was. *)
Theorem directory_ensured_before_check w w' r :
  main w = (w', r) →
  (∃ rest, trace w' = trace w ++ EvMakedirs DIRNAME :: rest)
  ∧ isdir_in (cwd w') DIR = negb (obstructed (cwd w) DIR)
  ∧ (fetches (trace w') = fetches (trace w) → cwd w' = cwd w)
  ∧ (exists_in (cwd w) FILE = true →
       r = Done tt
       ∧ fetches (trace w') = fetches (trace w)
       ∧ isdir_in (cwd w') DIR = true
       ∧ cwd w' = cwd w).
Proof.
  intros Hmain. split_and!.
  - rewrite main_cases in Hmain.
    destruct (ensure_dirs (cwd w) DIR) as [d1|e]; [|injection Hmain as <- _; by eexists].
    destruct (exists_in d1 FILE); [injection Hmain as <- _; by eexists|].
    cbv zeta in Hmain.
    destruct (net w) as [|[body|e|written e] rest].
    + injection Hmain as <- _; by eexists.
    + destruct (write_in d1 FILE body); injection Hmain as <- _; cbn [trace];
        rewrite <- ?app_assoc; by eexists.
    + injection Hmain as <- _; by eexists.
    + destruct (write_in d1 FILE written); injection Hmain as <- _; by eexists.
  - rewrite main_cases in Hmain.
    destruct (obstructed (cwd w) DIR) eqn:Hob; cbn [negb].
    + destruct (ensure_dirs_obstructed _ _ Hob) as [e He]. rewrite He in Hmain.
      injection Hmain as <- _. cbn [cwd]. by apply obstructed_not_isdir.
    + destruct (ensure_dirs_unobstructed _ _ Hob) as [d1 Hd1]. rewrite Hd1 in Hmain.
      pose proof (isdir_DIR_after _ _ Hd1) as Hdir.
      destruct (exists_in d1 FILE); [by injection Hmain as <- _|].
      cbv zeta in Hmain.
      destruct (net w) as [|[body|e|written e] rest].
      * by injection Hmain as <- _.
      * destruct (write_in d1 FILE body) eqn:Hw; injection Hmain as <- _; cbn [cwd];
          [by eapply write_in_isdir|done].
      * by injection Hmain as <- _.
      * destruct (write_in d1 FILE written) eqn:Hw; injection Hmain as <- _; cbn [cwd];
          [by eapply write_in_isdir|done].
  - rewrite main_cases in Hmain.
    destruct (ensure_dirs (cwd w) DIR) as [d1|e] eqn:Hd1; [|by injection Hmain as <- _].
    rewrite (exists_FILE_after _ _ Hd1) in Hmain.
    destruct (exists_in (cwd w) FILE) eqn:Hex.
    { injection Hmain as <- _. cbn [cwd]. intros _.
      apply (exists_in_parent DIR _ "silero_vad.onnx"), ensure_dirs_isdir in Hex.
      congruence. }
    cbv zeta in Hmain.
    destruct (net w) as [|[body|e|written e] rest].
    + injection Hmain as <- _. cbn [trace]. rewrite fetches_app. simpl. lia.
    + destruct (write_in d1 FILE body); injection Hmain as <- _; cbn [trace];
        rewrite !fetches_app; simpl; lia.
    + injection Hmain as <- _. cbn [trace]. rewrite fetches_app. simpl. lia.
    + destruct (write_in d1 FILE written); injection Hmain as <- _; cbn [trace];
        rewrite !fetches_app; simpl; lia.
  - intros Hex. rewrite main_present in Hmain; [|done].
    injection Hmain as <- <-. cbn [cwd net trace].
    rewrite fetches_app. simpl. repeat split; [lia|].
    by apply (exists_in_parent DIR _ "silero_vad.onnx").
Qed.

Lemma directory_ensured_before_check_witness :
  isdir_in (cwd world_offline) DIR = false
  ∧ (∃ rest, trace (main world_offline).1
             = trace world_offline ++ EvMakedirs DIRNAME :: rest)
  ∧ isdir_in (cwd (main world_offline).1) DIR = negb (obstructed (cwd world_offline) DIR)
  ∧ (fetches (trace (main world_offline).1) = fetches (trace world_offline) →
       cwd (main world_offline).1 = cwd world_offline)
  ∧ (exists_in (cwd world_offline) FILE = true →
       (main world_offline).2 = Done tt
       ∧ fetches (trace (main world_offline).1) = fetches (trace world_offline)
       ∧ isdir_in (cwd (main world_offline).1) DIR = true
       ∧ cwd (main world_offline).1 = cwd world_offline).
Proof.
  split; [reflexivity|].
  apply (directory_ensured_before_check world_offline
           (main world_offline).1 (main world_offline).2).
  vm_compute. reflexivity.
Defined.

(** *** Further properties of [main] *)

(** X1: where no regular file is in the way of the destination directory,
    the output path does not exist and the server answers with [body],
    [main] returns normally, the output file holds exactly [body], one
    response is used up, and the calls are: [makedirs], the check, the
    announcement, one [urlretrieve] of [MODEL_URL] to [OUTPUT_PATH], the
    confirmation. *)
Theorem download_writes_served_bytes w body rest :
  obstructed (cwd w) DIR = false →
  exists_in (cwd w) FILE = false →
  net w = Served body :: rest →
  ∃ w', main w = (w', Done tt)
        ∧ read_file (cwd w') FILE = Some body
        ∧ net w' = rest
        ∧ trace w' = trace w ++ [EvMakedirs DIRNAME; EvExists OUTPUT_PATH false;
                                 EvPrint MSG_DOWNLOADING;
                                 EvUrlretrieve MODEL_URL OUTPUT_PATH;
                                 EvPrint MSG_DOWNLOADED].
Proof.
  intros Hob Hex Hnet. rewrite main_cases.
  destruct (ensure_dirs_unobstructed _ _ Hob) as [d1 Hd1]. rewrite Hd1.
  rewrite (exists_FILE_after _ _ Hd1), Hex. cbv zeta. rewrite Hnet.
  assert (Hex1 : exists_in d1 FILE = false) by (by rewrite (exists_FILE_after _ _ Hd1)).
  destruct (write_after_ensure _ _ body Hd1 Hex1) as (d2 & -> & Hr).
  eexists. split; [done|]. cbn [cwd net trace]. split_and!; [done|done|].
  by rewrite <- app_assoc.
Qed.

Lemma download_writes_served_bytes_witness :
  ∃ w', main world_with_notes = (w', Done tt)
        ∧ read_file (cwd w') FILE = Some ABC
        ∧ net w' = []
        ∧ trace w' = trace world_with_notes
                       ++ [EvMakedirs DIRNAME; EvExists OUTPUT_PATH false;
                           EvPrint MSG_DOWNLOADING;
                           EvUrlretrieve MODEL_URL OUTPUT_PATH;
                           EvPrint MSG_DOWNLOADED].
Proof.
  apply (download_writes_served_bytes world_with_notes ABC []); reflexivity.
Defined.

(** X2: when the script ends with exit status 0, [main] has returned
    normally, no traceback was printed, and the output path exists. *)
Theorem exit_zero_means_file_present w w' tb :
  run_script w = (w', Exit 0 tb) →
  main w = (w', Done tt) ∧ tb = None ∧ exists_in (cwd w') FILE = true.
Proof.
  unfold run_script. destruct (main w) as [w1 [[]|e|]] eqn:Hmain.
  - intros [= <- <-]. split_and!; [done|done|].
    rewrite main_cases in Hmain.
    destruct (ensure_dirs (cwd w) DIR) as [d1|e] eqn:Hd1; [|done].
    destruct (exists_in d1 FILE) eqn:Hex.
    { by injection Hmain as <-. }
    cbv zeta in Hmain.
    destruct (net w) as [|[body|e|written e] rest]; try done.
    + destruct (write_after_ensure _ _ body Hd1 Hex) as (d2 & Hw & Hr).
      rewrite Hw in Hmain. injection Hmain as <-. cbn [cwd].
      by eapply read_file_exists.
    + by destruct (write_in d1 FILE written).
  - by destruct (isinstance_Exception e).
  - done.
Qed.

Lemma exit_zero_means_file_present_witness :
  main world_fresh = ((run_script world_fresh).1, Done tt)
  ∧ @None exn = None
  ∧ exists_in (cwd (run_script world_fresh).1) FILE = true.
Proof.
  apply (exit_zero_means_file_present world_fresh (run_script world_fresh).1 None).
  vm_compute. reflexivity.
Defined.

(** X3: a run makes a network fetch exactly when no regular file is in the
    way of the destination directory and the output path does not exist;
    it never makes more than one, and uses up at most one response. *)
Theorem fetch_exactly_when_absent w w' r :
  main w = (w', r) →
  fetches (trace w')
  = fetches (trace w)
    + (if obstructed (cwd w) DIR || exists_in (cwd w) FILE then 0 else 1)
  ∧ (net w' = net w ∨ ∃ resp, net w = resp :: net w').
Proof.
  intros Hmain. rewrite main_cases in Hmain.
  destruct (obstructed (cwd w) DIR) eqn:Hob; cbn [orb].
  - destruct (ensure_dirs_obstructed _ _ Hob) as [e He]. rewrite He in Hmain.
    injection Hmain as <- _. cbn [net trace]. rewrite fetches_app. simpl.
    split; [lia|by left].
  - destruct (ensure_dirs_unobstructed _ _ Hob) as [d1 Hd1]. rewrite Hd1 in Hmain.
    rewrite (exists_FILE_after _ _ Hd1) in Hmain.
    destruct (exists_in (cwd w) FILE) eqn:Hex.
    { injection Hmain as <- _. cbn [net trace]. rewrite fetches_app. simpl.
      split; [lia|by left]. }
    cbv zeta in Hmain.
    destruct (net w) as [|[body|e|written e] rest].
    + injection Hmain as <- _. cbn [net trace]. rewrite fetches_app. simpl.
      split; [lia|by left].
    + destruct (write_in d1 FILE body); injection Hmain as <- _; cbn [net trace];
        rewrite !fetches_app; simpl; (split; [lia|right; by eexists]).
    + injection Hmain as <- _. cbn [net trace]. rewrite fetches_app. simpl.
      split; [lia|right; by eexists].
    + destruct (write_in d1 FILE written); injection Hmain as <- _; cbn [net trace];
        rewrite !fetches_app; simpl; (split; [lia|right; by eexists]).
Qed.

Lemma fetch_exactly_when_absent_witness :
  fetches (trace (main world_fresh).1)
  = fetches (trace world_fresh)
    + (if obstructed (cwd world_fresh) DIR || exists_in (cwd world_fresh) FILE
       then 0 else 1)
  ∧ (net (main world_fresh).1 = net world_fresh
     ∨ ∃ resp, net world_fresh = resp :: net (main world_fresh).1).
Proof.
  apply (fetch_exactly_when_absent world_fresh (main world_fresh).1 (main world_fresh).2).
  vm_compute. reflexivity.
Defined.

(** X4: [main] loses nothing: every regular file that existed before a run
    still exists afterwards with the same bytes, and every directory is
    still a directory, however the run ends. *)
Theorem existing_entries_kept w w' r :
  main w = (w', r) →
  (∀ q b, read_file (cwd w) q = Some b → read_file (cwd w') q = Some b)
  ∧ (∀ q, isdir_in (cwd w) q = true → isdir_in (cwd w') q = true).
Proof.
  intros Hmain. rewrite main_cases in Hmain.
  destruct (ensure_dirs (cwd w) DIR) as [d1|e] eqn:Hd1.
  2: { by injection Hmain as <- _. }
  assert (Hf : ∀ q b, read_file (cwd w) q = Some b → read_file d1 q = Some b)
    by (intros q b; by eapply ensure_dirs_read_file).
  assert (Hd : ∀ q, isdir_in (cwd w) q = true → isdir_in d1 q = true)
    by (intros q; by eapply ensure_dirs_isdir_kept).
  destruct (exists_in d1 FILE) eqn:Hex.
  { by injection Hmain as <- _. }
  cbv zeta in Hmain.
  destruct (net w) as [|[body|e|written e] rest].
  - by injection Hmain as <- _.
  - destruct (write_in d1 FILE body) as [d2|] eqn:Hw; injection Hmain as <- _;
      cbn [cwd]; [|done].
    split.
    + intros q b Hq. eapply write_in_read_file; eauto.
    + intros q Hq. eapply write_in_isdir; eauto.
  - by injection Hmain as <- _.
  - destruct (write_in d1 FILE written) as [d2|] eqn:Hw; injection Hmain as <- _;
      cbn [cwd]; [|done].
    split.
    + intros q b Hq. eapply write_in_read_file; eauto.
    + intros q Hq. eapply write_in_isdir; eauto.
Qed.

Lemma existing_entries_kept_witness :
  (∀ q b, read_file (cwd world_with_notes) q = Some b →
          read_file (cwd (main world_with_notes).1) q = Some b)
  ∧ (∀ q, isdir_in (cwd world_with_notes) q = true →
          isdir_in (cwd (main world_with_notes).1) q = true).
Proof.
  apply (existing_entries_kept world_with_notes
           (main world_with_notes).1 (main world_with_notes).2).
  vm_compute. reflexivity.
Defined.

(** X5: existence is all that is checked.  When a run fails and leaves a
    file at the output path, the transfer was interrupted, and the next run
    takes the file for the model: it returns normally without a fetch and
    the file still holds only the bytes written before the interruption. *)
Theorem truncated_file_is_kept w w1 e w2 r2 :
  main w = (w1, Raised e) → exists_in (cwd w1) FILE = true → main w1 = (w2, r2) →
  r2 = Done tt
  ∧ fetches (trace w2) = fetches (trace w1)
  ∧ ∃ written rest, net w = Interrupted written e :: rest
                    ∧ read_file (cwd w2) FILE = Some written.
Proof.
  intros H1 Hex H2.
  rewrite main_present in H2; [|done]. injection H2 as <- <-. cbn [cwd trace].
  rewrite fetches_app. simpl. split_and!; [done|lia|].
  rewrite main_cases in H1.
  destruct (ensure_dirs (cwd w) DIR) as [d1|e1] eqn:Hd1.
  2: { injection H1 as <- _. cbn [cwd] in Hex.
       apply (exists_in_parent DIR _ "silero_vad.onnx"), ensure_dirs_isdir in Hex.
       congruence. }
  destruct (exists_in d1 FILE) eqn:Hex1; [done|]. cbv zeta in H1.
  destruct (net w) as [|[body|e0|written e0] rest].
  - injection H1 as <- _. cbn [cwd] in Hex. congruence.
  - destruct (write_after_ensure _ _ body Hd1 Hex1) as (d2 & Hw & _).
    by rewrite Hw in H1.
  - injection H1 as <- _. cbn [cwd] in Hex. congruence.
  - destruct (write_after_ensure _ _ written Hd1 Hex1) as (d2 & Hw & Hr).
    rewrite Hw in H1. injection H1 as <- <-. cbn [cwd]. eauto.
Qed.

Lemma truncated_file_is_kept_witness :
  (main (main world_truncated).1).2 = Done tt
  ∧ fetches (trace (main (main world_truncated).1).1)
    = fetches (trace (main world_truncated).1)
  ∧ ∃ written rest, net world_truncated = Interrupted written too_short :: rest
                    ∧ read_file (cwd (main (main world_truncated).1).1) FILE
                      = Some written.
Proof.
  apply (truncated_file_is_kept world_truncated (main world_truncated).1 too_short
           (main (main world_truncated).1).1 (main (main world_truncated).1).2).
  - vm_compute. reflexivity.
  - vm_compute. reflexivity.
  - vm_compute. reflexivity.
Defined.

End Script.

End FetcherFacts.

(** ** The session orchestrator: what [entrypoint] does *)

Module OrchestratorFacts.
Import Py Orchestrator.
#[local] Open Scope list_scope.

Section Entrypoint.
Implicit Types (env : Env) (ctx : JobContext) (e : exn) (k : step).

(** Splits on the next outcome the run depends on. *)
Ltac next_outcome :=
  match goal with
  | |- context [match ?o with _ => _ end] => is_var o; destruct o
  | H : context [match ?o with _ => _ end] |- _ => is_var o; destruct o
  end.

Ltac next_outcome_in H :=
  match type of H with
  | context [match ?o with _ => _ end] => is_var o; destruct o
  end.

Ltac run_entrypoint :=
  unfold run, entrypoint, try_except, Py.bind, logger_info, logger_error,
    ctx_connect, ctx_wait_for_participant, google_realtime_RealtimeModel,
    new_AgentSession, new_Agent, session_start, session_generate_reply,
    await_Future, await, construct, log, modify, ret, raise,
    isinstance_Exception, str in *;
  cbn in *.

(** Brings a failing run into the open: the outcomes before the failing
    call are resolved, the one at the call raises [e]. *)
Ltac open_failure Hreach Hraise :=
  unfold reaches in Hreach; cbn in Hreach, Hraise;
  unfold resolved, constructed, raised_by in Hreach, Hraise;
  repeat (next_outcome_in Hreach; try discriminate Hreach; cbn in Hreach);
  repeat (next_outcome_in Hraise; try discriminate Hraise);
  try (injection Hraise as Hraise); subst.

Lemma count_app p (tr1 tr2 : list event) :
  count p (tr1 ++ tr2) = count p tr1 + count p tr2.
Proof. induction tr1 as [|ev tr1 IH]; [done|]. simpl. rewrite IH. lia. Qed.

Lemma no_error_record_before ctx p n :
  count is_error_record (take n (full_trace ctx p)) = 0.
Proof. do 11 (destruct n as [|n]; [done|]). done. Qed.

(** A run that gets to the final wait has made every call, once, and ends
    as the wait ends. *)
Lemma run_to_final_wait env ctx :
  reaches env FinalWait = true →
  ∃ p, wait_for_participant env = Resolves p
       ∧ (run env ctx).1 = full_trace ctx p
       ∧ (run env ctx).2 =
           match future env with
           | Never => Suspended
           | Cancel msg => Raised (Exn CancelledError msg)
           | Close => Raised (Exn GeneratorExit "")
           end.
Proof.
  destruct env as [c w m s a st g f]. unfold reaches. cbn.
  unfold resolved, constructed. intros H.
  repeat (next_outcome; try discriminate H; cbn in H).
  all: eexists; split; [done|]; run_entrypoint; done.
Qed.

(** What a failing run leaves behind, for either kind of exception. *)
Lemma run_failing env ctx k e :
  fails_at env k e →
  ∃ p, run env ctx =
         if isinstance_Exception e
         then (take (events_through k) (full_trace ctx p)
                 ++ [LogError ("CRITICAL ERROR: " +:+ str e) (Some e)], Done tt)
         else (take (events_through k) (full_trace ctx p), Raised e).
Proof.
  intros [Hreach Hraise]. destruct env as [c w m s a st g f].
  destruct k; open_failure Hreach Hraise;
    first [ match goal with p : Participant |- _ => exists p end | exists nobody ];
    run_entrypoint;
    try match goal with |- context [if ?b then _ else _] => destruct b end; done.
Qed.

(** X7: the entrypoint returns normally exactly when one of its calls raises
    an exception of class [Exception]; there is no other way out of it by a
    normal return. *)
Lemma returns_normally_iff env ctx :
  (run env ctx).2 = Done tt ↔
  ∃ k e, fails_at env k e ∧ isinstance_Exception e = true.
Proof.
  split.
  - destruct env as [c w m s a st g f]. unfold fails_at, reaches. intros H.
    run_entrypoint.
    repeat (first [next_outcome_in H
                  | match type of H with
                    | context [is_Exception ?cl] => destruct (is_Exception cl) eqn:?
                    end]; cbn in H);
      try discriminate H.
    all: first [ by exists Connect; eexists; split_and!
               | by exists WaitForParticipant; eexists; split_and!
               | by exists MakeModel; eexists; split_and!
               | by exists MakeSession; eexists; split_and!
               | by exists MakeAgent; eexists; split_and!
               | by exists StartSession; eexists; split_and!
               | by exists GenerateReply; eexists; split_and! ].
  - intros (k & e & Hfail & He).
    destruct (run_failing env ctx k e Hfail) as [p Hrun].
    rewrite He in Hrun. by rewrite Hrun.
Qed.

(** *** C2 *)

(** Claim C2 as stated fails: a cancellation delivered while the entrypoint
    waits for a participant is an exception raised during step 2; it is
    not caught, nothing is logged, and it leaves the entrypoint. *)
Lemma cancellation_not_caught :
  fails_at env_cancelled WaitForParticipant cancelled
  ∧ (run env_cancelled lobby).2 = Raised cancelled
  ∧ count is_error_record (run env_cancelled lobby).1 = 0.
Proof. vm_compute. done. Qed.

(** Claim C2, amended: every exception of class [Exception] raised by one
    of the calls of the entrypoint is caught by the one outer handler: the
    run makes no further call, logs one error record, with the text
    [CRITICAL ERROR: str(e)] and the stack trace, and returns normally. *)
Theorem exception_logged_and_swallowed env ctx k e :
  fails_at env k e → isinstance_Exception e = true →
  (run env ctx).2 = Done tt
  ∧ count is_error_record (run env ctx).1 = 1
  ∧ last (run env ctx).1 = Some (LogError ("CRITICAL ERROR: " +:+ str e) (Some e))
  ∧ ∃ p, (run env ctx).1 =
           take (events_through k) (full_trace ctx p)
             ++ [LogError ("CRITICAL ERROR: " +:+ str e) (Some e)].
Proof.
  intros Hfail He. destruct (run_failing env ctx k e Hfail) as [p Hrun].
  rewrite He in Hrun. rewrite Hrun. cbn [fst snd]. split_and!.
  - done.
  - rewrite count_app, no_error_record_before. done.
  - by rewrite last_snoc.
  - by exists p.
Qed.

Lemma exception_logged_and_swallowed_witness :
  (run env_refused lobby).2 = Done tt
  ∧ count is_error_record (run env_refused lobby).1 = 1
  ∧ last (run env_refused lobby).1
    = Some (LogError ("CRITICAL ERROR: " +:+ str refused) (Some refused))
  ∧ ∃ p, (run env_refused lobby).1 =
           take (events_through Connect) (full_trace lobby p)
             ++ [LogError ("CRITICAL ERROR: " +:+ str refused) (Some refused)].
Proof.
  apply (exception_logged_and_swallowed env_refused lobby Connect refused).
  - split; reflexivity.
  - reflexivity.
Defined.

(** *** C4 *)

(** Claim C4: in every run in which each call before the final wait comes
    back (the participant wait resolves, nothing raises), the model client
    is constructed once, with the model identifier
    [gemini-2.0-flash-exp], the session is started once and the greeting
    is requested once, in that order, before the final wait; nothing is
    logged as an error. *)
Theorem start_then_greeting_once env ctx :
  reaches env FinalWait = true →
  ∃ p, wait_for_participant env = Resolves p
       ∧ (run env ctx).1 = full_trace ctx p
       ∧ (run env ctx).1 !! 4 = Some (NewRealtimeModel "gemini-2.0-flash-exp"
                                        "You are Vanta, a helpful assistant.")
       ∧ count is_new_model (run env ctx).1 = 1
       ∧ count is_start (run env ctx).1 = 1
       ∧ count is_generate_reply (run env ctx).1 = 1
       ∧ position is_start (run env ctx).1 = Some 7
       ∧ position is_generate_reply (run env ctx).1 = Some 8
       ∧ position is_final_wait (run env ctx).1 = Some 9
       ∧ count is_error_record (run env ctx).1 = 0.
Proof.
  intros H. destruct (run_to_final_wait env ctx H) as (p & Hp & Htr & _).
  exists p. rewrite Htr. by split_and!.
Qed.

Lemma start_then_greeting_once_witness :
  ∃ p, wait_for_participant env_ok = Resolves p
       ∧ (run env_ok lobby).1 = full_trace lobby p
       ∧ (run env_ok lobby).1 !! 4 = Some (NewRealtimeModel "gemini-2.0-flash-exp"
                                             "You are Vanta, a helpful assistant.")
       ∧ count is_new_model (run env_ok lobby).1 = 1
       ∧ count is_start (run env_ok lobby).1 = 1
       ∧ count is_generate_reply (run env_ok lobby).1 = 1
       ∧ position is_start (run env_ok lobby).1 = Some 7
       ∧ position is_generate_reply (run env_ok lobby).1 = Some 8
       ∧ position is_final_wait (run env_ok lobby).1 = Some 9
       ∧ count is_error_record (run env_ok lobby).1 = 0.
Proof. apply (start_then_greeting_once env_ok lobby). reflexivity. Defined.

(** *** C6 *)

(** Claim C6 as stated fails: the entrypoint does return normally, for one
    when the room refuses the connection. *)
Lemma returns_normally_when_refused :
  (run env_refused lobby).2 = Done tt.
Proof. vm_compute. done. Qed.

(** Claim C6, amended: once the greeting has been issued, the entrypoint
    never returns normally: it is parked on the wait for a future that
    nobody resolves, and stays there unless its task is cancelled or
    closed, in which case that exception leaves the entrypoint. *)
Theorem suspends_after_greeting env ctx :
  reaches env FinalWait = true →
  (run env ctx).2 ≠ Done tt
  ∧ last (run env ctx).1 = Some AwaitFuture
  ∧ (run env ctx).1 !! 8 = Some (SessionGenerateReply the_session GREETING)
  ∧ (run env ctx).2 =
      match future env with
      | Never => Suspended
      | Cancel msg => Raised (Exn CancelledError msg)
      | Close => Raised (Exn GeneratorExit "")
      end.
Proof.
  intros H. destruct (run_to_final_wait env ctx H) as (p & Hp & Htr & Hres).
  rewrite Htr, Hres. split_and!; try done. by destruct (future env).
Qed.

Lemma suspends_after_greeting_witness :
  (run env_ok lobby).2 ≠ Done tt
  ∧ last (run env_ok lobby).1 = Some AwaitFuture
  ∧ (run env_ok lobby).1 !! 8 = Some (SessionGenerateReply the_session GREETING)
  ∧ (run env_ok lobby).2 =
      match future env_ok with
      | Never => Suspended
      | Cancel msg => Raised (Exn CancelledError msg)
      | Close => Raised (Exn GeneratorExit "")
      end.
Proof. apply (suspends_after_greeting env_ok lobby). reflexivity. Defined.

(** *** C8 *)

(** Claim C8: whenever the session is started, the model client it wraps
    was constructed with the instruction
    [You are Vanta, a helpful assistant.] and the agent descriptor passed
    to the start carries [You are Vanta.]; the two strings differ. *)
Theorem instruction_strings_differ env ctx i session rm agent :
  (run env ctx).1 !! i = Some (SessionStart session rm agent) →
  instructions (llm session) = "You are Vanta, a helpful assistant."
  ∧ agent_instructions agent = "You are Vanta."
  ∧ instructions (llm session) ≠ agent_instructions agent
  ∧ (run env ctx).1 !! 4 = Some (NewRealtimeModel (model (llm session))
                                   (instructions (llm session)))
  ∧ (run env ctx).1 !! 6 = Some (NewAgent (agent_instructions agent)).
Proof.
  destruct env as [c w m s a st g f]. intros H.
  run_entrypoint.
  repeat (first [next_outcome_in H
                | match type of H with
                  | context [is_Exception ?cl] => destruct (is_Exception cl)
                  end]; cbn in H);
    do 11 (destruct i as [|i]; cbn in H;
           [first [discriminate H | injection H as <- <- <-; cbn; done]|]);
    discriminate H.
Qed.

Lemma instruction_strings_differ_witness :
  instructions (llm the_session) = "You are Vanta, a helpful assistant."
  ∧ agent_instructions the_agent = "You are Vanta."
  ∧ instructions (llm the_session) ≠ agent_instructions the_agent
  ∧ (run env_ok lobby).1 !! 4 = Some (NewRealtimeModel (model (llm the_session))
                                        (instructions (llm the_session)))
  ∧ (run env_ok lobby).1 !! 6 = Some (NewAgent (agent_instructions the_agent)).
Proof.
  apply (instruction_strings_differ env_ok lobby 7 the_session (room lobby) the_agent).
  reflexivity.
Defined.

(** *** C9 *)

(** Claim C9: an exception raised at any call of the entrypoint, the final
    wait included, whose class does not derive from [Exception] (a task
    cancellation, a keyboard interrupt, a system exit) is not caught: no
    error record is logged and the exception leaves the entrypoint. *)
Theorem base_exception_propagates env ctx k e :
  fails_at env k e → isinstance_Exception e = false →
  (run env ctx).2 = Raised e
  ∧ count is_error_record (run env ctx).1 = 0
  ∧ ∃ p, (run env ctx).1 = take (events_through k) (full_trace ctx p).
Proof.
  intros Hfail He. destruct (run_failing env ctx k e Hfail) as [p Hrun].
  rewrite He in Hrun. rewrite Hrun. cbn [fst snd]. split_and!.
  - done.
  - apply no_error_record_before.
  - by exists p.
Qed.

Lemma base_exception_propagates_witness :
  (run env_cancelled lobby).2 = Raised cancelled
  ∧ count is_error_record (run env_cancelled lobby).1 = 0
  ∧ ∃ p, (run env_cancelled lobby).1
         = take (events_through WaitForParticipant) (full_trace lobby p).
Proof.
  apply (base_exception_propagates env_cancelled lobby WaitForParticipant cancelled).
  - split; reflexivity.
  - reflexivity.
Defined.

(** *** Further properties of [entrypoint] *)

(** Splits on every outcome the run in the goal depends on. *)
Ltac all_outcomes :=
  repeat (first [ progress cbn
                | match goal with
                  | |- context [match ?o with _ => _ end] => is_var o; destruct o
                  | |- context [is_Exception ?cl] => destruct (is_Exception cl) eqn:?
                  end ]).

(** Some call of every run raises or never completes: the last one, the
    wait on the future, has no other way to end. *)
Lemma run_stops_somewhere env :
  (∃ k e, fails_at env k e) ∨ (∃ k, reaches env k = true ∧ pends_at env k = true).
Proof.
  destruct env as [c w m s a st g f]. unfold fails_at, reaches.
  destruct c as [[]|e|]; [|left; exists Connect, e; done|right; by exists Connect].
  destruct w as [p|e|];
    [|left; exists WaitForParticipant, e; done|right; by exists WaitForParticipant].
  destruct m as [e|]; [left; exists MakeModel, e; done|].
  destruct s as [e|]; [left; exists MakeSession, e; done|].
  destruct a as [e|]; [left; exists MakeAgent, e; done|].
  destruct st as [[]|e|]; [|left; exists StartSession, e; done|right; by exists StartSession].
  destruct g as [[]|e|]; [|left; exists GenerateReply, e; done|right; by exists GenerateReply].
  destruct f as [|msg|]; [right; by exists FinalWait|left|left];
    exists FinalWait; eexists; done.
Qed.

(** What a run leaves behind when a call never completes. *)
Lemma run_pending env ctx k :
  reaches env k = true → pends_at env k = true →
  ∃ p, run env ctx = (take (events_through k) (full_trace ctx p), Suspended).
Proof.
  destruct env as [c w m s a st g f]. unfold reaches. intros Hreach Hpend.
  destruct k; cbn in Hreach, Hpend; unfold resolved, constructed, pending in *;
    repeat (next_outcome_in Hreach; try discriminate Hreach; cbn in Hreach);
    repeat (next_outcome_in Hpend; try discriminate Hpend);
    first [ match goal with p : Participant |- _ => by exists p end
          | by exists nobody ].
Qed.

(** The events of a run other than the error record sit where the fixed
    sequence has them. *)
Lemma lookup_fixed_sequence env ctx i ev :
  (run env ctx).1 !! i = Some ev → is_error_record ev = false →
  ∃ p, full_trace ctx p !! i = Some ev.
Proof.
  intros Hi Hev.
  assert (∃ p n tail, (run env ctx).1 = take n (full_trace ctx p) ++ tail
                      ∧ ∀ x, x ∈ tail → is_error_record x = true)
    as (p & n & tail & Htr & Htail).
  { destruct (run_stops_somewhere env) as [(k & e & Hfail)|(k & Hr & Hp)].
    - destruct (run_failing env ctx k e Hfail) as [p Hrun]. rewrite Hrun.
      exists p, (events_through k).
      destruct (isinstance_Exception e); cbn [fst snd].
      + eexists. split; [done|]. by intros x ->%list_elem_of_singleton.
      + exists []. rewrite app_nil_r. split; [done|]. by intros x ?%elem_of_nil.
    - destruct (run_pending env ctx k Hr Hp) as [p Hrun]. rewrite Hrun.
      exists p, (events_through k), []. rewrite app_nil_r.
      split; [done|]. by intros x ?%elem_of_nil. }
  exists p. rewrite Htr in Hi. apply lookup_app_Some in Hi as [Hi|[_ Hi]].
  - apply lookup_take_Some in Hi. by destruct Hi.
  - apply list_elem_of_lookup_2, Htail in Hi. congruence.
Qed.

Lemma start_in_fixed_sequence ctx p i session rm agent :
  full_trace ctx p !! i = Some (SessionStart session rm agent) →
  i = 7 ∧ session = the_session ∧ rm = room ctx ∧ agent = the_agent.
Proof.
  intros H.
  do 11 (destruct i as [|i]; cbn in H;
         [first [discriminate H | injection H as <- <- <-; done]|]).
  discriminate H.
Qed.

Lemma greeting_in_fixed_sequence ctx p j session text :
  full_trace ctx p !! j = Some (SessionGenerateReply session text) →
  j = 8 ∧ session = the_session ∧ text = GREETING.
Proof.
  intros H.
  do 11 (destruct j as [|j]; cbn in H;
         [first [discriminate H | injection H as <- <-; done]|]).
  discriminate H.
Qed.

(** X6: each call of the entrypoint is made exactly once when every call
    before it came back, and is not made at all otherwise: nothing is
    retried and nothing is skipped. *)
Theorem call_made_once_iff_reached env ctx k :
  count (is_call k) (run env ctx).1 = if reaches env k then 1 else 0.
Proof.
  destruct env as [c w m s a st g f]. unfold reaches.
  destruct k; unfold resolved, constructed; run_entrypoint; all_outcomes; done.
Qed.

(** X8: an exception leaves the entrypoint exactly when one of its calls
    raises an exception whose class is outside [Exception]; an exception
    of class [Exception] never escapes. *)
Theorem raises_iff env ctx e :
  (run env ctx).2 = Raised e ↔
  ∃ k, fails_at env k e ∧ isinstance_Exception e = false.
Proof.
  split.
  - intros Hres. destruct (run_stops_somewhere env) as [(k & e' & Hfail)|(k & Hr & Hp)].
    + destruct (run_failing env ctx k e' Hfail) as [p Hrun]. rewrite Hrun in Hres.
      destruct (isinstance_Exception e') eqn:He; [done|].
      injection Hres as <-. by exists k.
    + destruct (run_pending env ctx k Hr Hp) as [p Hrun]. by rewrite Hrun in Hres.
  - intros (k & Hfail & He).
    destruct (run_failing env ctx k e Hfail) as [p Hrun].
    rewrite He in Hrun. by rewrite Hrun.
Qed.

(** X9: the entrypoint stays suspended for ever exactly when the run gets to
    an awaited call that never completes (there is no timeout on any of
    them), the wait on the future included. *)
Theorem suspended_iff_pending env ctx :
  (run env ctx).2 = Suspended ↔ ∃ k, reaches env k = true ∧ pends_at env k = true.
Proof.
  split.
  - intros Hres. destruct (run_stops_somewhere env) as [(k & e' & Hfail)|Hp]; [|done].
    destruct (run_failing env ctx k e' Hfail) as [p Hrun]. rewrite Hrun in Hres.
    by destruct (isinstance_Exception e').
  - intros (k & Hr & Hp).
    destruct (run_pending env ctx k Hr Hp) as [p Hrun]. by rewrite Hrun.
Qed.

(** X10: when the run gets to an awaited call that never completes, say
    because no participant ever joins, the entrypoint is parked at that
    call: nothing is logged as an error, no later call is made, and the
    record of calls is the fixed sequence up to that call. *)
Theorem pending_call_suspends env ctx k :
  reaches env k = true → pends_at env k = true →
  (run env ctx).2 = Suspended
  ∧ count is_error_record (run env ctx).1 = 0
  ∧ (∀ j, step_index k < step_index j → count (is_call j) (run env ctx).1 = 0)
  ∧ ∃ p, (run env ctx).1 = take (events_through k) (full_trace ctx p).
Proof.
  intros Hr Hp. destruct (run_pending env ctx k Hr Hp) as [p Hrun].
  rewrite Hrun. cbn [fst snd]. split_and!.
  - done.
  - apply no_error_record_before.
  - intros j Hlt. destruct k, j; cbn in Hlt; try lia; done.
  - by exists p.
Qed.

Lemma pending_call_suspends_witness :
  (run env_waiting lobby).2 = Suspended
  ∧ count is_error_record (run env_waiting lobby).1 = 0
  ∧ (∀ j, step_index WaitForParticipant < step_index j →
          count (is_call j) (run env_waiting lobby).1 = 0)
  ∧ ∃ p, (run env_waiting lobby).1
         = take (events_through WaitForParticipant) (full_trace lobby p).
Proof.
  apply (pending_call_suspends env_waiting lobby WaitForParticipant); reflexivity.
Defined.

(** X11: the record of every run is a beginning of the one fixed sequence of
    log lines and calls, in that order; when the run returns normally it is
    followed by exactly one error record, for an exception of class
    [Exception], and otherwise by nothing. *)
Theorem run_is_prefix_of_fixed_sequence env ctx :
  ∃ p n,
    match (run env ctx).2 with
    | Done _ => ∃ e, isinstance_Exception e = true
                     ∧ (run env ctx).1 =
                         take n (full_trace ctx p)
                           ++ [LogError ("CRITICAL ERROR: " +:+ str e) (Some e)]
    | _ => (run env ctx).1 = take n (full_trace ctx p)
    end.
Proof.
  destruct (run_stops_somewhere env) as [(k & e & Hfail)|(k & Hr & Hp)].
  - destruct (run_failing env ctx k e Hfail) as [p Hrun]. rewrite Hrun.
    exists p, (events_through k).
    destruct (isinstance_Exception e) eqn:He; cbn [fst snd]; [by exists e|done].
  - destruct (run_pending env ctx k Hr Hp) as [p Hrun]. rewrite Hrun.
    by exists p, (events_through k).
Qed.

(** The record of a run: a beginning of the fixed sequence, then error
    records only. *)
Lemma run_shape env ctx :
  ∃ p n tail, (run env ctx).1 = take n (full_trace ctx p) ++ tail
              ∧ ∀ x, x ∈ tail → is_error_record x = true.
Proof.
  destruct (run_stops_somewhere env) as [(k & e & Hfail)|(k & Hr & Hp)].
  - destruct (run_failing env ctx k e Hfail) as [p Hrun]. rewrite Hrun.
    exists p, (events_through k).
    destruct (isinstance_Exception e); cbn [fst snd].
    + eexists. split; [done|]. by intros x ->%list_elem_of_singleton.
    + exists []. rewrite app_nil_r. split; [done|]. by intros x ?%elem_of_nil.
  - destruct (run_pending env ctx k Hr Hp) as [p Hrun]. rewrite Hrun.
    exists p, (events_through k), []. rewrite app_nil_r.
    split; [done|]. by intros x ?%elem_of_nil.
Qed.

Lemma no_call_among_error_records k (tail : list event) :
  (∀ x, x ∈ tail → is_error_record x = true) → count (is_call k) tail = 0.
Proof.
  induction tail as [|x tail IH]; [done|]. intros Hall. simpl.
  rewrite IH; [|intros y Hy; apply Hall; by right].
  assert (Hx : is_error_record x = true) by (apply Hall; by left).
  by destruct x, k.
Qed.

(** X12: a run that starts the session and requests the greeting has
    constructed one [AgentSession] and no more, around the one model
    client, and the session passed to the start and the session asked for
    the greeting are both equal to it; the session is started on the room
    of the context, before the greeting is requested, and the request carries
    the one hard-coded greeting instruction. *)
Theorem greeting_goes_to_started_session env ctx i j session rm agent session' text :
  (run env ctx).1 !! i = Some (SessionStart session rm agent) →
  (run env ctx).1 !! j = Some (SessionGenerateReply session' text) →
  count (is_call MakeSession) (run env ctx).1 = 1
  ∧ count (is_call MakeModel) (run env ctx).1 = 1
  ∧ (run env ctx).1 !! 5 = Some (NewAgentSession (llm session))
  ∧ session' = session
  ∧ rm = room ctx
  ∧ text = "Say hello to the user and introduce yourself as Vanta."
  ∧ i < j.
Proof.
  intros Hi Hj.
  destruct (run_shape env ctx) as (p & n & tail & Htr & Htail).
  rewrite Htr in Hi, Hj. rewrite Htr.
  apply lookup_app_Some in Hi as [Hi|[_ Hi]];
    [|apply list_elem_of_lookup_2, Htail in Hi; discriminate Hi].
  apply lookup_app_Some in Hj as [Hj|[_ Hj]];
    [|apply list_elem_of_lookup_2, Htail in Hj; discriminate Hj].
  apply lookup_take_Some in Hi as [Hi Hin], Hj as [Hj Hjn].
  apply start_in_fixed_sequence in Hi as (-> & -> & -> & _).
  apply greeting_in_fixed_sequence in Hj as (-> & -> & ->).
  rewrite !count_app, !(no_call_among_error_records _ tail Htail).
  do 9 (destruct n as [|n]; [lia|]).
  do 2 (destruct n as [|n]; [split_and!; try done; lia|]).
  split_and!; try done. lia.
Qed.

Lemma greeting_goes_to_started_session_witness :
  count (is_call MakeSession) (run env_ok lobby).1 = 1
  ∧ count (is_call MakeModel) (run env_ok lobby).1 = 1
  ∧ (run env_ok lobby).1 !! 5 = Some (NewAgentSession (llm the_session))
  ∧ the_session = the_session
  ∧ room lobby = room lobby
  ∧ GREETING = "Say hello to the user and introduce yourself as Vanta."
  ∧ 7 < 8.
Proof.
  apply (greeting_goes_to_started_session env_ok lobby 7 8
           the_session (room lobby) the_agent the_session GREETING); reflexivity.
Defined.

(** X13: once the room is connected and a participant has joined, the log
    holds the line [Connecting to room <name>] with the name of the room of
    the context, written before the connection, and the line
    [Participant connected: <identity>] with the identity of that
    participant, written before the model client is constructed. *)
Theorem participant_join_logged env ctx p :
  connect env = Resolves tt → wait_for_participant env = Resolves p →
  (run env ctx).1 !! 0 = Some (LogInfo ("Connecting to room " +:+ name (room ctx)))
  ∧ (run env ctx).1 !! 1 = Some CtxConnect
  ∧ (run env ctx).1 !! 3 = Some (LogInfo ("Participant connected: " +:+ identity p))
  ∧ position is_new_model (run env ctx).1 = Some 4.
Proof.
  destruct env as [c w m s a st g f]. cbn. intros -> ->.
  run_entrypoint. all_outcomes; done.
Qed.

Lemma participant_join_logged_witness :
  (run env_ok lobby).1 !! 0 = Some (LogInfo ("Connecting to room " +:+ name (room lobby)))
  ∧ (run env_ok lobby).1 !! 1 = Some CtxConnect
  ∧ (run env_ok lobby).1 !! 3 = Some (LogInfo ("Participant connected: " +:+ identity alice))
  ∧ position is_new_model (run env_ok lobby).1 = Some 4.
Proof.
  apply (participant_join_logged env_ok lobby alice); reflexivity.
Defined.

End Entrypoint.

End OrchestratorFacts.
